(** * kagejs/website: the documentation pipeline and the navigation index

    A shallow embedding of the two utility modules of the documentation
    site and proofs about them:

    - the table-of-contents module ([toc], [flattenToc], [getEntryBySlug],
      [getNavigation]), a pure module over a static catalog;
    - [utils/shiki.ts] ([getHighlighter], [highlight]) and
      [utils/markdown.ts] ([parseFrontmatter], the [marked] instance with
      its [walkTokens] hook and [code] renderer, [parseMarkdown]).

    JavaScript strings are [string]s, arrays are [list]s, [undefined] is
    [None], a rejected promise or a thrown exception is [Err]. Module-level
    variables ([highlighter], the heading list and the slugger of the
    heading-id extension) live in an explicit state that every call threads. *)

From Stdlib Require Import ZArith Lia Ascii String List.
From stdpp Require Import base option list strings gmap pretty.

Local Open Scope Z_scope.
Set Warnings "-register-all,-clear-no-such-hyp".
#[global] Arguments String.append !s1 s2 : simpl nomatch.
#[global] Arguments Ascii.eqb : simpl never.
Set Default Proof Using "Type*".

(** ** JavaScript primitives used by the sources *)

Module Js.

(** Truthiness of a string: the empty string is the only falsy one. *)
Definition truthy (s : string) : bool :=
  match s with
  | EmptyString => false
  | String _ _ => true
  end.

(** Truthiness of a possibly undefined string ([x ? a : b], [if (x)]). *)
Definition truthy_opt (o : option string) : bool :=
  match o with
  | Some s => truthy s
  | None => false
  end.

(** [x || d] on a possibly undefined string. *)
Definition or_default (o : option string) (d : string) : string :=
  match o with
  | Some s => if truthy s then s else d
  | None => d
  end.

(** [Array.prototype.findIndex]: the first index whose element satisfies
    the predicate, [-1] when there is none. *)
Fixpoint findIndex_from {A} (p : A -> bool) (l : list A) (i : Z) : Z :=
  match l with
  | [] => -1
  | x :: l' => if p x then i else findIndex_from p l' (i + 1)
  end.

Definition findIndex {A} (p : A -> bool) (l : list A) : Z :=
  findIndex_from p l 0.

(** [arr[i]] for an integer [i]: [undefined] outside [0 .. length-1],
    negative indices included. *)
Definition index {A} (l : list A) (i : Z) : option A :=
  if i <? 0 then None else l !! Z.to_nat i.

(** [Array.prototype.includes] on strings. *)
Definition includes (l : list string) (s : string) : bool :=
  existsb (String.eqb s) l.

End Js.

(** ** The table-of-contents module *)

Module Toc.

Record TocEntry := mkTocEntry {
  title : string;
  slug : string;
  file : string
}.

Record TocCategory := mkTocCategory {
  cat_title : string;
  items : list TocEntry
}.

Definition toc : list TocCategory :=
  [ mkTocCategory "Getting Started"
      [ mkTocEntry "Introduction" "" "index.md";
        mkTocEntry "Installation" "installation" "installation.md";
        mkTocEntry "Quick Start" "quickstart" "quickstart.md" ];
    mkTocCategory "Core Concepts"
      [ mkTocEntry "Routing" "concepts/routing" "concepts/routing.md";
        mkTocEntry "Context" "concepts/context" "concepts/context.md";
        mkTocEntry "Middleware" "concepts/middleware" "concepts/middleware.md";
        mkTocEntry "Schema Validation" "concepts/schema" "concepts/schema.md" ];
    mkTocCategory "Advanced"
      [ mkTocEntry "Plugins" "advanced/plugins" "advanced/plugins.md";
        mkTocEntry "Mounting Routers" "advanced/mounting" "advanced/mounting.md";
        mkTocEntry "State Management" "advanced/state" "advanced/state.md";
        mkTocEntry "Workers" "advanced/workers" "advanced/workers.md" ];
    mkTocCategory "API Reference"
      [ mkTocEntry "Kage Class" "api/kage" "api/kage.md";
        mkTocEntry "Context" "api/context" "api/context.md";
        mkTocEntry "Types" "api/types" "api/types.md" ] ].

Record NavEntry := mkNavEntry {
  nav_title : string;
  nav_category : option string;
  nav_href : string
}.

(** [FlatEntry extends TocEntry]: the entry's own fields, then the two
    added ones. *)
Record FlatEntry := mkFlatEntry {
  entry : TocEntry;
  category : string;
  href : string
}.

(** [item.slug ? `/docs/${item.slug}` : "/docs"] *)
Definition href_of (s : string) : string :=
  if Js.truthy s then "/docs/" +:+ s else "/docs".

Definition flat_of (c : TocCategory) (item : TocEntry) : FlatEntry :=
  {| entry := item; category := cat_title c; href := href_of (slug item) |}.

(** The entries of one category, flattened. *)
Definition row (c : TocCategory) : list FlatEntry := map (flat_of c) (items c).

(** The two nested [for ... of] loops of [flattenToc], each iteration
    pushing onto the accumulator [flat]. The catalog is an argument so
    that the loops can be studied on any catalog; the module calls it
    once, on [toc]. *)
Definition flattenToc_of (cats : list TocCategory) : list FlatEntry :=
  fold_left
    (fun flat c =>
       fold_left (fun flat item => flat ++ [flat_of c item]) (items c) flat)
    cats [].

Definition flattenToc : list FlatEntry := flattenToc_of toc.

Definition flatToc : list FlatEntry := flattenToc.

Definition has_slug (s : string) (e : FlatEntry) : bool :=
  String.eqb (slug (entry e)) s.

Definition getEntryBySlug (s : string) : option FlatEntry :=
  find (has_slug s) flatToc.

Record Navigation := mkNavigation {
  prev : option NavEntry;
  next : option NavEntry
}.

Definition nav_of (e : FlatEntry) : NavEntry :=
  {| nav_title := title (entry e);
     nav_category := Some (category e);
     nav_href := href e |}.

(** [getNavigation] over an arbitrary flattened array. *)
Definition getNavigation_in (flat : list FlatEntry) (s : string) : Navigation :=
  let idx := Js.findIndex (has_slug s) flat in
  if idx =? -1 then {| prev := None; next := None |}
  else
    let prev := Js.index flat (idx - 1) in
    let next := Js.index flat (idx + 1) in
    {| prev := match prev with Some p => Some (nav_of p) | None => None end;
       next := match next with Some n => Some (nav_of n) | None => None end |}.

Definition getNavigation (s : string) : Navigation :=
  getNavigation_in flatToc s.

(** Position of entry [i] of category [j] in category-then-item order:
    the sizes of the categories before [j], then [i]. *)
Definition position (cats : list TocCategory) (j i : nat) : nat :=
  (list_sum (map (fun c => length (items c)) (take j cats)) + i)%nat.

(** An element of the array [getSidebarNavigation] returns, as the
    consumer types it ([SidebarItem]): [href] and [items] may be absent,
    and [items] holds elements of the same shape. *)
Inductive SidebarItem : Type :=
  mkSidebarItem {
    s_title : string;
    s_href : option string;
    s_items : option (list SidebarItem)
  }.

(** [getSidebarNavigation] over an arbitrary catalog: the two nested [map]s. *)
Definition getSidebarNavigation_of (cats : list TocCategory) : list SidebarItem :=
  map (fun category =>
         {| s_title := cat_title category;
            s_href := Some "#";
            s_items :=
              Some (map (fun item =>
                           {| s_title := title item;
                              s_href := Some (if Js.truthy (slug item)
                                              then "/docs/" +:+ slug item
                                              else "/docs");
                              s_items := None |})
                        (items category)) |})
      cats.

Definition getSidebarNavigation : list SidebarItem := getSidebarNavigation_of toc.

(** The links a sidebar shows: the items of its sections, in order. *)
Definition sidebar_links (nav : list SidebarItem) : list SidebarItem :=
  flat_map (fun section => default [] (s_items section)) nav.

End Toc.

(** ** [islands/SidebarNav.tsx] *)

Module SidebarNav.
Import Toc.

Definition navigation : list SidebarItem := getSidebarNavigation.

(** [x === currentPath] for a possibly absent [x]. *)
Definition is_path (x : option string) (currentPath : string) : bool :=
  match x with
  | Some h => String.eqb h currentPath
  | None => false
  end.

(** [isActiveSection]: an array is truthy, empty or not. *)
Definition isActiveSection (section : SidebarItem) (currentPath : string) : bool :=
  match s_items section with
  | Some items => existsb (fun item => is_path (s_href item) currentPath) items
  | None => is_path (s_href section) currentPath
  end.

End SidebarNav.

(** ** Results, and the monad of module-level state with exceptions *)

(** A value, or a thrown exception (a rejected promise) with its message. *)
Inductive Result (A : Type) : Type :=
| Ok (a : A)
| Err (e : string).
Arguments Ok {A} a.
Arguments Err {A} e.

Definition is_ok {A} (r : Result A) : bool :=
  match r with Ok _ => true | Err _ => false end.

Definition is_err {A} (r : Result A) : bool := negb (is_ok r).

(** Values of the structured metadata block ([unknown] in the source).
    [null] and [undefined] are both [VNull]; a number keeps its literal. *)
Inductive Value : Type :=
| VNull
| VBool (b : bool)
| VNumber (literal : string)
| VString (s : string)
| VArray (l : list Value)
| VObject (fields : list (string * Value)).

(** [v[key]] on a value: defined on objects that own the key. *)
Fixpoint assoc (key : string) (fields : list (string * Value)) : option Value :=
  match fields with
  | [] => None
  | (k, v) :: rest => if String.eqb k key then Some v else assoc key rest
  end.

Definition get_field (key : string) (v : Value) : option Value :=
  match v with
  | VObject fields => assoc key fields
  | _ => None
  end.

(** [v ?? d] *)
Definition nullish (v d : Value) : Value :=
  match v with
  | VNull => d
  | _ => v
  end.

(** The empty object literal. *)
Definition empty_object : Value := VObject [].

(** A token of the markdown token tree, with the fields the sources read or
    write: [type], [raw], [text], [lang] (absent on indented code), [depth]
    (of a heading), the children [tokens], and [highlighted], the field the
    [walkTokens] hook adds to code tokens. *)
Inductive Token : Type :=
  mkToken {
    type : string;
    raw : string;
    text : string;
    lang : option string;
    depth : nat;
    highlighted : option string;
    tokens : list Token
  }.

Definition set_highlighted (t : Token) (h : string) : Token :=
  match t with
  | mkToken ty rw tx lg dp _ ch => mkToken ty rw tx lg dp (Some h) ch
  end.

Definition set_tokens (t : Token) (ch : list Token) : Token :=
  match t with
  | mkToken ty rw tx lg dp hl _ => mkToken ty rw tx lg dp hl ch
  end.

(** The packages the two modules import but do not contain: [shiki]
    ([createHighlighter], [codeToHtml]), [@std/yaml] ([parse]), [marked]
    (its lexer and its renderers for tokens other than code and headings)
    and the slug function behind [marked-gfm-heading-id]. Every theorem
    holds for all of them. *)
Class Packages : Type := {
  Highlighter : Type;
  (** [createHighlighter({themes, langs})], by theme names and languages *)
  createHighlighter : list string -> list string -> Result Highlighter;
  (** [hl.codeToHtml(code, {lang, theme})] *)
  codeToHtml : Highlighter -> string -> string -> string -> Result string;
  (** [parseYaml(text)] *)
  parseYaml : string -> Result Value;
  (** the block lexer of [marked]: source text to token tree *)
  lexer : string -> list Token;
  (** the renderer of a token that is neither code nor a heading, from the
      token and the markup of its children *)
  render_token : Token -> list string -> string;
  (** the inline markup of a heading, and its text as given to the slugger *)
  heading_text : Token -> string;
  heading_raw : Token -> string;
  (** the slug of a text before disambiguation *)
  slug_base : string -> string
}.

(** The heading records kept by the heading-id extension. *)
Record GfmHeading := mkGfmHeading {
  g_level : nat;
  g_text : string;
  g_id : string;
  g_raw : string
}.

Section State.
Context `{Packages}.

(** The module-level variables: [highlighter] of [shiki.ts], and the
    heading list and slugger of the heading-id extension. *)
Record State := mkState {
  highlighter : option Highlighter;
  headings : list GfmHeading;
  occurrences : gmap string nat
}.

Definition M (A : Type) : Type := State -> Result A * State.

Definition ret {A} (a : A) : M A := fun st => (Ok a, st).

Definition bind {A B} (m : M A) (k : A -> M B) : M B :=
  fun st =>
    match m st with
    | (Ok a, st') => k a st'
    | (Err e, st') => (Err e, st')
    end.

Definition lift {A} (r : Result A) : M A := fun st => (r, st).

Definition get : M State := fun st => (Ok st, st).

Definition put (st : State) : M unit := fun _ => (Ok tt, st).

End State.

Declare Scope js_scope.
Delimit Scope js_scope with js.
Notation "'let*' x ':=' m 'in' k" := (bind m (fun x => k))
  (at level 10, x name, m at level 100, k at level 200) : js_scope.

(** ** [utils/shiki.ts] *)

Section Shiki.
Context `{Packages}.
Local Open Scope js_scope.

(** [kageTheme.name]; the colour table of the theme is data for the
    package only. *)
Definition kageTheme : string := "kage".

Definition langs : list string :=
  ["typescript"; "javascript"; "json"; "bash"; "tsx"; "jsx"].

Definition set_highlighter (st : State) (hl : Highlighter) : State :=
  mkState (Some hl) (headings st) (occurrences st).

Definition getHighlighter : M Highlighter :=
  let* st := get in
  match highlighter st with
  | None =>
      let* hl := lift (createHighlighter [kageTheme] langs) in
      let* _ := put (set_highlighter st hl) in
      ret hl
  | Some hl => ret hl
  end.

Definition validLangs : list string :=
  ["typescript"; "javascript"; "json"; "bash"; "tsx"; "jsx"; "ts"; "js"].

(** The language handed to [codeToHtml] for a tag. *)
Definition resolve_lang (lang : string) : string :=
  let language := if Js.includes validLangs lang then lang else "typescript" in
  if String.eqb language "ts" then "typescript"
  else if String.eqb language "js" then "javascript"
  else language.

(** [highlight(code, lang = "typescript")] *)
Definition highlight (code : string) (lang : option string) : M string :=
  let lang := default "typescript" lang in
  let* hl := getHighlighter in
  lift (codeToHtml hl code (resolve_lang lang) "kage").

End Shiki.

(** ** [utils/markdown.ts]: the metadata header *)

(** The matcher of [frontmatterRegex], written piece by piece. The
    expression reads: start of input, [---], [\r?\n], a lazy group of any
    characters, [\r?\n---\r?\n], a greedy group of any characters, end of
    input. It has no flags, so the two anchors are the two ends of the
    whole input, and a group matches line breaks too. *)
Module Regex.

Definition LF : ascii := "010"%char.
Definition CR : ascii := "013"%char.

Definition nl : string := String LF EmptyString.
Definition cr : string := String CR EmptyString.

(** An optional carriage return. *)
Definition opt_cr (b : bool) : string := if b then cr else EmptyString.

(** The end of an input whose last line is a delimiter with no line feed
    after it. *)
Definition unterminated (b : bool) : string := nl +:+ "---" +:+ opt_cr b.

(** A literal at the head of the input; returns what follows it. *)
Fixpoint literal (p s : string) : option string :=
  match p with
  | EmptyString => Some s
  | String a p' =>
      match s with
      | String b s' => if Ascii.eqb a b then literal p' s' else None
      | EmptyString => None
      end
  end.

(** [\r?\n] at the head of the input. The optional [\r] is greedy, and
    giving it up never helps: [\n] does not match a [\r]. *)
Definition newline (s : string) : option string :=
  match s with
  | String c s' =>
      if Ascii.eqb c CR then
        match s' with
        | String d s'' => if Ascii.eqb d LF then Some s'' else None
        | EmptyString => None
        end
      else if Ascii.eqb c LF then Some s'
      else None
  | EmptyString => None
  end.

(** [\r?\n---\r?\n] at the head of the input. *)
Definition closing (s : string) : option string :=
  match newline s with
  | Some r =>
      match literal "---" r with
      | Some r' => newline r'
      | None => None
      end
  | None => None
  end.

(** The lazy group, the closing delimiter and the greedy group: the lazy
    group takes the fewest characters after which the closing delimiter
    matches; the greedy group takes all that remains, which reaches the
    end of the input. Returns the two groups. *)
Fixpoint lazy_group (s : string) : option (string * string) :=
  match closing s with
  | Some rest => Some (EmptyString, rest)
  | None =>
      match s with
      | EmptyString => None
      | String c s' =>
          match lazy_group s' with
          | Some (g, rest) => Some (String c g, rest)
          | None => None
          end
      end
  end.

(** [content.match(frontmatterRegex)], as the pair [(match[1], match[2])]. *)
Definition frontmatterRegex (content : string) : option (string * string) :=
  match literal "---" content with
  | Some r =>
      match newline r with
      | Some r' => lazy_group r'
      | None => None
      end
  | None => None
  end.

(** The lines of a text: the pieces between line feeds. *)
Fixpoint lines (s : string) : list string :=
  match s with
  | EmptyString => [EmptyString]
  | String c s' =>
      if Ascii.eqb c LF then EmptyString :: lines s'
      else
        match lines s' with
        | l :: ls => String c l :: ls
        | [] => [String c EmptyString]
        end
  end.

(** A delimiter line: exactly [---], a trailing carriage return allowed. *)
Definition is_delimiter (l : string) : bool :=
  String.eqb l "---" || String.eqb l ("---" +:+ String CR EmptyString).

(** No delimiter line among the lines [ls]. *)
Definition no_delimiter_line (ls : list string) : bool :=
  forallb (fun l => negb (is_delimiter l)) ls.

(** No line break in a text. *)
Fixpoint one_line (s : string) : bool :=
  match s with
  | EmptyString => true
  | String c s' => negb (Ascii.eqb c LF) && negb (Ascii.eqb c CR) && one_line s'
  end.

(** Whether the last character of a text is a carriage return. *)
Fixpoint last_is_CR (s : string) : bool :=
  match s with
  | EmptyString => false
  | String c EmptyString => Ascii.eqb c CR
  | String _ s' => last_is_CR s'
  end.

(** The closing delimiter line with its line break, then the body. *)
Definition terminated (b1 b2 : bool) (body : string) : string :=
  opt_cr b1 +:+ nl +:+ "---" +:+ opt_cr b2 +:+ nl +:+ body.

End Regex.

Record Frontmatter := mkFrontmatter {
  data : Value;
  content : string
}.

Record Heading := mkHeading {
  id : string;
  h_text : string;
  level : nat
}.

Record ParsedMarkdown := mkParsedMarkdown {
  html : string;
  p_headings : list Heading;
  frontmatter : Value
}.

Section Markdown.
Context `{Packages}.
Local Open Scope js_scope.

(** [parseFrontmatter]: the [try]/[catch] around [parseYaml] is the match
    on its result. *)
Definition parseFrontmatter (content : string) : Frontmatter :=
  match Regex.frontmatterRegex content with
  | None => {| data := empty_object; content := content |}
  | Some (yamlStr, markdown) =>
      match parseYaml yamlStr with
      | Ok data => {| data := nullish data empty_object; content := markdown |}
      | Err _ => {| data := empty_object; content := markdown |}
      end
  end.

(** The [walkTokens] hook given to [marked.use]. *)
Definition walkTokens_hook (token : Token) : M Token :=
  if String.eqb (type token) "code" then
    let language := Js.or_default (lang token) "typescript" in
    let* highlighted := highlight (text token) (Some language) in
    ret (set_highlighted token highlighted)
  else ret token.

Definition quote : string := String (ascii_of_nat 34) EmptyString.

(** The highlighted rendering of a code block: the markup [h] of the
    highlighter inside the wrapper element. *)
Definition shiki_wrapper (h : string) : string :=
  "<div class=" +:+ quote +:+ "shiki-wrapper my-6" +:+ quote +:+ ">"
    +:+ h +:+ "</div>".

(** The plain rendering of a code block with text [t]. *)
Definition plain_code (t : string) : string :=
  "<pre><code>" +:+ t +:+ "</code></pre>".

(** The [code] renderer given to [marked.use]. *)
Definition renderer_code (token : Token) : string :=
  match highlighted token with
  | Some h => if Js.truthy h then shiki_wrapper h else plain_code (text token)
  | None => plain_code (text token)
  end.

(** Modelled from the spec: the heading-anchor generator of the packages
    [marked-gfm-heading-id] and [github-slugger], which [markdown.ts]
    installs with [marked.use(gfmHeadingId())] and whose code is not in
    this repository. The identifier of a heading is the slug of its text;
    a slug already given out in the document is disambiguated by a
    counter suffix, [-1], [-2], ..., raised until the result is one not
    given out before. [occurrences] maps every identifier given out to
    its counter. The loop is bounded by [fuel]; with one more unit than
    [occurrences] has keys it ends by its own test (see
    [slug_loop_exits]). *)
Fixpoint slug_loop (fuel : nat) (occ : gmap string nat)
    (originalSlug result : string) : string * gmap string nat :=
  match fuel, occ !! result with
  | S fuel', Some _ =>
      let n := S (default 0%nat (occ !! originalSlug)) in
      slug_loop fuel' (<[originalSlug := n]> occ) originalSlug
                (originalSlug +:+ "-" +:+ pretty n)
  | _, _ => (result, <[result := 0%nat]> occ)
  end.

Definition slugger_slug (value : string) : M string :=
  fun st =>
    let original := slug_base value in
    let '(result, occ) :=
      slug_loop (S (size (occurrences st))) (occurrences st) original original in
    (Ok result, mkState (highlighter st) (headings st) occ).

(** Modelled from the spec: [resetHeadings] of the heading-id extension,
    run by its [preprocess] hook at the start of every parse: an empty
    heading list and a fresh slugger. *)
Definition resetHeadings : M unit :=
  fun st => (Ok tt, mkState (highlighter st) [] ∅).

Definition push_heading (h : GfmHeading) : M unit :=
  fun st => (Ok tt, mkState (highlighter st) (headings st ++ [h]) (occurrences st)).

(** Modelled from the spec: the [heading] renderer of the heading-id
    extension: it slugs the heading's text, records the heading and
    renders the element with its identifier. *)
Definition gfm_heading (token : Token) : M string :=
  let text := heading_text token in
  let raw := heading_raw token in
  let level := depth token in
  let* id := slugger_slug raw in
  let* _ := push_heading (mkGfmHeading level text id raw) in
  ret ("<h" +:+ pretty level +:+ " id=" +:+ quote +:+ id +:+ quote +:+ ">"
         +:+ text +:+ "</h" +:+ pretty level +:+ ">" +:+ String Regex.LF EmptyString).

(** [getHeadingList()] *)
Definition getHeadingList : M (list GfmHeading) :=
  let* st := get in ret (headings st).

(** A callback run on every element of an array, in order. *)
Definition mapM {A B} (f : A -> M B) : list A -> M (list B) :=
  fix go (l : list A) : M (list B) :=
    match l with
    | [] => ret []
    | x :: l' =>
        let* y := f x in
        let* ys := go l' in
        ret (y :: ys)
    end.

(** Modelled from the spec: [marked]'s traversal for [walkTokens] hooks:
    the hook runs on a token, then on the token's children. The hooks of
    one document are awaited together; the model runs them in token
    order, and the parse is rejected as soon as one of them is. *)
Fixpoint walkTokens_token (t : Token) : M Token :=
  let* t' := walkTokens_hook t in
  let* ch := mapM walkTokens_token (tokens t) in
  ret (set_tokens t' ch).

Definition walkTokens (l : list Token) : M (list Token) :=
  mapM walkTokens_token l.

(** Modelled from the spec: [marked]'s parser with the renderers
    installed by [marked.use]: [renderer_code] for code tokens, the
    heading-id renderer for headings, the package's own renderers for
    the others; the markup of a token list is the concatenation of
    the markup of its tokens, in document order. *)
Fixpoint parser_token (t : Token) : M string :=
  if String.eqb (type t) "code" then ret (renderer_code t)
  else if String.eqb (type t) "heading" then gfm_heading t
  else
    let* bodies := mapM parser_token (tokens t) in
    ret (render_token t bodies).

Definition parser (l : list Token) : M string :=
  let* outs := mapM parser_token l in
  ret (String.concat "" outs).

(** What [marked] adds to the message of an exception before rejecting. *)
Definition report_suffix : string :=
  String Regex.LF "Please report this to https://github.com/markedjs/marked.".

Definition rethrow {A} (m : M A) : M A :=
  fun st =>
    match m st with
    | (Ok a, st') => (Ok a, st')
    | (Err e, st') => (Err (e +:+ report_suffix), st')
    end.

(** Modelled from the spec: [marked.parse] of the instance built in
    [markdown.ts] ([async: true], not [silent]): the [preprocess] hook,
    the lexer, the [walkTokens] hooks, the parser; an exception on the
    way rejects the returned promise. *)
Definition marked_parse (src : string) : M string :=
  rethrow
    (let* _ := resetHeadings in
     let tokens := lexer src in
     let* tokens := walkTokens tokens in
     parser tokens).

Definition export_heading (h : GfmHeading) : Heading :=
  {| id := g_id h; h_text := g_text h; level := g_level h |}.

(** What [parseMarkdown] does once the header is split off, as a function
    of the metadata and of the text given to [marked.parse]. *)
Definition render_document (frontmatter : Value) (markdown : string)
    : M ParsedMarkdown :=
  let* html := marked_parse markdown in
  let* list := getHeadingList in
  let headings := map export_heading list in
  ret {| html := html; p_headings := headings; frontmatter := frontmatter |}.

Definition parseMarkdown (content : string) : M ParsedMarkdown :=
  match parseFrontmatter content with
  | mkFrontmatter frontmatter markdown =>
      let* html := marked_parse markdown in
      let* list := getHeadingList in
      let headings := map export_heading list in
      ret {| html := html; p_headings := headings; frontmatter := frontmatter |}
  end.

End Markdown.

(** ** Stand-ins for the packages

    Small executable stand-ins for the imported packages, used to run the
    modules on concrete documents. They cover what the examples need: a
    line-based block lexer (fences, ATX headings, paragraphs), a reader of
    [key: value] lines, and a highlighter that wraps the code. *)

Module Sample.

Definition fence_mark : string := "```".

Definition code_token (lang text : string) : Token :=
  mkToken "code" text text (Some lang) 0 None [].

Definition heading_token (depth : nat) (text : string) : Token :=
  mkToken "heading" text text None depth None [].

Definition paragraph_token (text : string) : Token :=
  mkToken "paragraph" text text None 0 None [].

Definition join_lines (ls : list string) : string :=
  String.concat (String Regex.LF EmptyString) ls.

Definition lex_line (l : string) : list Token :=
  match Regex.literal "### " l with
  | Some t => [heading_token 3 t]
  | None =>
      match Regex.literal "## " l with
      | Some t => [heading_token 2 t]
      | None =>
          match Regex.literal "# " l with
          | Some t => [heading_token 1 t]
          | None => if Js.truthy l then [paragraph_token l] else []
          end
      end
  end.

(** [fence] holds the language and the lines read so far of an open fence. *)
Fixpoint lex_lines (ls : list string) (fence : option (string * list string))
    : list Token :=
  match ls with
  | [] =>
      match fence with
      | Some (lang, acc) => [code_token lang (join_lines acc)]
      | None => []
      end
  | l :: ls' =>
      match fence with
      | Some (lang, acc) =>
          if String.eqb l fence_mark
          then code_token lang (join_lines acc) :: lex_lines ls' None
          else lex_lines ls' (Some (lang, acc ++ [l]))
      | None =>
          match Regex.literal fence_mark l with
          | Some lang => lex_lines ls' (Some (lang, []))
          | None => lex_line l ++ lex_lines ls' None
          end
      end
  end.

Definition sample_lexer (src : string) : list Token :=
  lex_lines (Regex.lines src) None.

(** [key: value] *)
Fixpoint key_value (l : string) : option (string * string) :=
  match Regex.literal ": " l with
  | Some v => Some (EmptyString, v)
  | None =>
      match l with
      | EmptyString => None
      | String c l' =>
          match key_value l' with
          | Some (k, v) => Some (String c k, v)
          | None => None
          end
      end
  end.

Fixpoint read_fields (ls : list string) : Result (list (string * Value)) :=
  match ls with
  | [] => Ok []
  | l :: ls' =>
      match key_value l, read_fields ls' with
      | Some (k, v), Ok fs => Ok ((k, VString v) :: fs)
      | None, _ => Err "bad mapping entry"
      | _, Err e => Err e
      end
  end.

Definition sample_yaml (text : string) : Result Value :=
  if Js.truthy text then
    match read_fields (Regex.lines text) with
    | Ok fs => Ok (VObject fs)
    | Err e => Err e
    end
  else Ok VNull.

Definition sample_codeToHtml (_ : unit) (code lang theme : string) : Result string :=
  if Js.includes langs lang then
    Ok ("<pre class=" +:+ quote +:+ "shiki " +:+ theme +:+ quote +:+ "><code>"
          +:+ code +:+ "</code></pre>")
  else Err ("Language `" +:+ lang +:+ "` not found").

Definition sample_render (t : Token) (bodies : list string) : string :=
  if String.eqb (type t) "paragraph" then "<p>" +:+ text t +:+ "</p>"
  else String.concat "" bodies.

Definition lower (c : ascii) : ascii :=
  let n := nat_of_ascii c in
  if (65 <=? n)%nat && (n <=? 90)%nat then ascii_of_nat (n + 32)
  else if Ascii.eqb c " " then "-"%char
  else c.

Fixpoint sample_slug (s : string) : string :=
  match s with
  | EmptyString => EmptyString
  | String c s' => String (lower c) (sample_slug s')
  end.

(** The stand-in packages; [engine] tells whether the highlighting
    engine can be created. *)
Definition packages (engine : bool) : Packages :=
  {| Highlighter := unit;
     createHighlighter := fun _ _ =>
       if engine then Ok tt else Err "cannot create the highlighter";
     codeToHtml := sample_codeToHtml;
     parseYaml := sample_yaml;
     lexer := sample_lexer;
     render_token := sample_render;
     heading_text := text;
     heading_raw := text;
     slug_base := sample_slug |}.

Definition nl : string := Regex.nl.

(** Sample documents. *)



(** A header whose block is not a mapping: an unclosed flow sequence. *)
Definition bad_header : string :=
  "---" +:+ nl +:+ "[" +:+ nl +:+ "---" +:+ nl +:+ "body".

(** Two headings with the same text. *)
Definition twice : string := "## Example" +:+ nl +:+ "## Example".

(** Three headings with the same text. *)
Definition thrice : string :=
  "## Example" +:+ nl +:+ "### Example" +:+ nl +:+ "## Example".

(** Headings with different texts. *)
Definition sections : string := "## Install" +:+ nl +:+ "## Usage".

End Sample.

(** ** What the pipeline computes, and the properties studied *)

Section Reading.
Context `{Packages}.

(** The highlighter a call will use: the memoised one, or else the one
    [createHighlighter] gives. *)
Definition effective (st : State) : Result Highlighter :=
  match highlighter st with
  | Some hl => Ok hl
  | None => createHighlighter [kageTheme] langs
  end.

(** The outcome of [highlight] with that highlighter. *)
Definition highlight_result (eh : Result Highlighter) (code : string)
    (lang : option string) : Result string :=
  match eh with
  | Ok hl => codeToHtml hl code (resolve_lang (default "typescript" lang)) "kage"
  | Err e => Err e
  end.

(** The outcome of the [walkTokens] hook on one token. *)
Definition hook_result (eh : Result Highlighter) (t : Token) : Result Token :=
  if String.eqb (type t) "code" then
    match highlight_result eh (text t) (Some (Js.or_default (lang t) "typescript")) with
    | Ok h => Ok (set_highlighted t h)
    | Err e => Err e
    end
  else Ok t.

Definition mapR {A B} (f : A -> Result B) : list A -> Result (list B) :=
  fix go (l : list A) : Result (list B) :=
    match l with
    | [] => Ok []
    | x :: l' =>
        match f x with
        | Ok y => match go l' with Ok ys => Ok (y :: ys) | Err e => Err e end
        | Err e => Err e
        end
    end.

(** The outcome of the traversal on a token and its descendants. *)
Fixpoint walk_result (eh : Result Highlighter) (t : Token) : Result Token :=
  match hook_result eh t with
  | Ok t' =>
      match mapR (walk_result eh) (tokens t) with
      | Ok ch => Ok (set_tokens t' ch)
      | Err e => Err e
      end
  | Err e => Err e
  end.

(** A token and its descendants, in traversal order. *)
Fixpoint subtokens (t : Token) : list Token :=
  t :: flat_map subtokens (tokens t).

Definition all_tokens (l : list Token) : list Token := flat_map subtokens l.

(** The code tokens of a document: its fences and indented blocks. *)
Definition code_tokens (doc : string) : list Token :=
  filter (fun t => String.eqb (type t) "code" = true)
         (all_tokens (lexer (content (parseFrontmatter doc)))).


(** The language tag the hook passes for a token. *)
Definition tag (t : Token) : string := Js.or_default (lang t) "typescript".



(** The property of C3 at one input: a header that is absent or whose
    block fails to parse leaves empty metadata and the whole input as
    body. *)
Definition degrades_to_whole_input (input : string) : Prop :=
  match Regex.frontmatterRegex input with
  | None => True
  | Some (y, _) => is_err (parseYaml y) = true
  end ->
  parseFrontmatter input = {| data := empty_object; content := input |}.

(** The state of the modules before any call. *)
Definition initial : State := mkState None [] ∅.

(** A state with another value of [highlighter]. *)
Definition with_highlighter (st : State) (hl : option Highlighter) : State :=
  mkState hl (headings st) (occurrences st).

(** [st'] differs from [st] at most by a memoised highlighter, which is
    the one [st] would have created. *)
Definition frame (st st' : State) : Prop :=
  effective st' = effective st
  /\ headings st' = headings st
  /\ occurrences st' = occurrences st.

(** A computation that reads and writes the variables of the heading-id
    extension only. *)
Definition GfmOnly {A} (m : M A) : Prop :=
  forall st hl,
    m (with_highlighter st hl) = (fst (m st), with_highlighter (snd (m st)) hl).

(** The [m]-th disambiguated candidate for a slug. *)
Definition candidate (originalSlug : string) (m : nat) : string :=
  originalSlug +:+ "-" +:+ pretty m.

(** The heading tokens the parser renders, in document order. *)
Fixpoint rendered_headings (t : Token) : list Token :=
  if String.eqb (type t) "code" then []
  else if String.eqb (type t) "heading" then [t]
  else flat_map rendered_headings (tokens t).

(** What the heading-id extension keeps of a heading token. *)
Definition heading_of (t : Token) (id : string) : GfmHeading :=
  mkGfmHeading (depth t) (heading_text t) id (heading_raw t).

(** What a parser run adds to the state of the heading-id extension: the
    headings [new], one for each heading token of [ts] in order, with
    pairwise distinct identifiers that were not keys of [occurrences]
    before and are keys after. *)
Definition adds_headings (ts : list Token) (st st' : State)
    (new : list GfmHeading) : Prop :=
  highlighter st' = highlighter st
  /\ headings st' = headings st ++ new
  /\ dom (occurrences st) ⊆ dom (occurrences st')
  /\ NoDup (map g_id new)
  /\ (forall h, h ∈ new ->
        occurrences st !! g_id h = None /\ g_id h ∈ dom (occurrences st'))
  /\ Forall2 (fun h t => h = heading_of t (g_id h)) new ts.

(** The outcome of [parseMarkdown] as a function of the document and of
    the highlighter in effect. *)
Definition parse_result (eh : Result Highlighter) (doc : string)
    : Result ParsedMarkdown :=
  match parseFrontmatter doc with
  | mkFrontmatter frontmatter markdown =>
      match mapR (walk_result eh) (lexer markdown) with
      | Ok toks =>
          match parser toks initial with
          | (Ok html, st) =>
              Ok {| html := html;
                    p_headings := map export_heading (headings st);
                    frontmatter := frontmatter |}
          | (Err e, _) => Err (e +:+ report_suffix)
          end
      | Err e => Err (e +:+ report_suffix)
      end
  end.

End Reading.

(** ** [loadMarkdownFile] and the route [routes/docs/[...slug].tsx] *)

(** What the route takes from the runtime: [Deno.readTextFile], the
    [pathname] of [new URL(relative, import.meta.url)], and, for a number
    value kept as its literal, whether the number is falsy (zero or NaN). *)
Class Runtime : Type := {
  readTextFile : string -> Result string;
  pathname : string -> string;
  falsy_number : string -> bool
}.

(** The data the handler gives to [page]. [title] is what [a || b] leaves:
    the metadata value when it is truthy, the entry's title otherwise. *)
Record Data := mkData {
  d_title : Value;
  d_description : option Value;
  d_html : string;
  d_headings : list Heading;
  currentPath : string;
  d_prev : option Toc.NavEntry;
  d_next : option Toc.NavEntry
}.

(** How a request ends: the page data, a thrown [HttpError] with its
    status, or another exception. *)
Inductive Outcome : Type :=
| Page (d : Data)
| HttpError (status : Z)
| Thrown (e : string).

Section Route.
Context `{Packages} `{Runtime}.
Local Open Scope js_scope.

Definition loadMarkdownFile (filePath : string) : M ParsedMarkdown :=
  let* content := lift (readTextFile filePath) in
  parseMarkdown content.

(** Truthiness of a value. *)
Definition truthy_value (v : Value) : bool :=
  match v with
  | VNull => false
  | VBool b => b
  | VNumber literal => negb (falsy_number literal)
  | VString s => Js.truthy s
  | VArray _ => true
  | VObject _ => true
  end.

(** [v.key]: a [TypeError] on [null] and [undefined], the own field of an
    object, [undefined] on the other values (the keys read here, [title]
    and [description], are properties of no string, number, boolean or
    array). *)
Definition member (key : string) (v : Value) : Result (option Value) :=
  match v with
  | VNull => Err "TypeError: cannot read properties of null"
  | _ => Ok (get_field key v)
  end.

(** [a || b] for a possibly undefined [a]. *)
Definition or_value (a : option Value) (b : Value) : Value :=
  match a with
  | Some v => if truthy_value v then v else b
  | None => b
  end.

(** The argument of [page(...)] in both versions of the handler. *)
Definition page_data (parsed : ParsedMarkdown) (entry : Toc.FlatEntry)
    (nav : Toc.Navigation) : Outcome :=
  match member "title" (frontmatter parsed) with
  | Err e => Thrown e
  | Ok t =>
      match member "description" (frontmatter parsed) with
      | Err e => Thrown e
      | Ok d =>
          Page {| d_title := or_value t (VString (Toc.title (Toc.entry entry)));
                  d_description := d;
                  d_html := html parsed;
                  d_headings := p_headings parsed;
                  currentPath := Toc.href entry;
                  d_prev := Toc.prev nav;
                  d_next := Toc.next nav |}
      end
  end.

(** The [GET] handler that reads the document from one place (lines 17 to
    51 of the route file): [slugParts] is [ctx.params.slug]. *)
Definition GET (slugParts : option string) (st : State) : Outcome * State :=
  let slug := Js.or_default slugParts "" in
  match Toc.getEntryBySlug slug with
  | None => (HttpError 404, st)
  | Some entry =>
      let filePath :=
        pathname ("../../content/docs/" +:+ Toc.file (Toc.entry entry)) in
      match loadMarkdownFile filePath st with
      | (Err _, st') => (HttpError 404, st')
      | (Ok parsed, st') => (page_data parsed entry (Toc.getNavigation slug), st')
      end
  end.

(** The [GET] handler that tries the production place and then the
    development place (lines 86 to 125 of the route file). *)
Definition GET_prod_dev (slugParts : option string) (st : State) : Outcome * State :=
  let slug := Js.or_default slugParts "" in
  match Toc.getEntryBySlug slug with
  | None => (HttpError 404, st)
  | Some entry =>
      let prodPath := pathname "../content/docs/" in
      let devPath := pathname "../../content/docs/" in
      match loadMarkdownFile (prodPath +:+ Toc.file (Toc.entry entry)) st with
      | (Ok parsed, st') => (page_data parsed entry (Toc.getNavigation slug), st')
      | (Err _, st') =>
          match loadMarkdownFile (devPath +:+ Toc.file (Toc.entry entry)) st' with
          | (Ok parsed, st'') =>
              (page_data parsed entry (Toc.getNavigation slug), st'')
          | (Err _, st'') => (HttpError 404, st'')
          end
      end
  end.

Definition is_page (o : Outcome) : bool :=
  match o with Page _ => true | _ => false end.

(** The page built for a parsed document whose metadata is not null. *)
Definition page_of (parsed : ParsedMarkdown) (entry : Toc.FlatEntry)
    (slug : string) : Data :=
  {| d_title := or_value (get_field "title" (frontmatter parsed))
                  (VString (Toc.title (Toc.entry entry)));
     d_description := get_field "description" (frontmatter parsed);
     d_html := html parsed;
     d_headings := p_headings parsed;
     currentPath := Toc.href entry;
     d_prev := Toc.prev (Toc.getNavigation slug);
     d_next := Toc.next (Toc.getNavigation slug) |}.

(** The outcome of [loadMarkdownFile] as a function of the path and of the
    highlighter in effect. *)
Definition load_result (eh : Result Highlighter) (filePath : string)
    : Result ParsedMarkdown :=
  match readTextFile filePath with
  | Ok content => parse_result eh content
  | Err e => Err e
  end.

(** The slug a request asks for: [slugParts || ""]. *)
Definition requested (slugParts : option string) : string :=
  Js.or_default slugParts "".

End Route.

(** A runtime whose only file is the introduction, at the place the
    one-place handler reads. *)
Definition sample_runtime : Runtime :=
  {| readTextFile := fun path =>
       if String.eqb path "/site/content/docs/index.md"
       then Ok ("---" +:+ Sample.nl +:+ "title: Welcome" +:+ Sample.nl
                  +:+ "---" +:+ Sample.nl +:+ "## Start")
       else Err "NotFound";
     pathname := fun relative =>
       match Regex.literal "../../" relative with
       | Some rest => "/site/" +:+ rest
       | None => "/site/routes/" +:+ relative
       end;
     falsy_number := fun literal => String.eqb literal "0" |}.

(** ** The identifiers of a run of headings *)

Section Slugs.
Context `{Packages}.

(** The identifiers the slugger gives to a list of base slugs, one after
    the other, and the [occurrences] it ends with. *)
Fixpoint slug_run (occ : gmap string nat) (bases : list string)
    : list string * gmap string nat :=
  match bases with
  | [] => ([], occ)
  | b :: bs =>
      let '(r, occ1) := slug_loop (S (size occ)) occ b b in
      let '(rs, occ2) := slug_run occ1 bs in
      (r :: rs, occ2)
  end.

(** The base slugs of the heading tokens the parser renders. *)
Definition bases_of (ts : list Token) : list string :=
  map (fun t => slug_base (heading_raw t)) ts.

(** The state a parse leaves [highlighter] in, read off the document: kept
    when already set; untouched when the document has no code token; else
    what [createHighlighter] gives, nothing being kept of a failure. *)
Definition highlighter_after (st : State) (has_code : bool) : option Highlighter :=
  match highlighter st with
  | Some hl => Some hl
  | None =>
      if has_code then
        match createHighlighter [kageTheme] langs with
        | Ok hl => Some hl
        | Err _ => None
        end
      else None
  end.

Definition is_code (t : Token) : bool := String.eqb (type t) "code".

(** The state after the parser has rendered the heading tokens [ts]: the
    headings recorded, with the identifiers of [slug_run]. *)
Definition parser_state (st : State) (ts : list Token) : State :=
  mkState (highlighter st)
    (headings st
       ++ zip_with heading_of ts (fst (slug_run (occurrences st) (bases_of ts))))
    (snd (slug_run (occurrences st) (bases_of ts))).

End Slugs.

(** * Theorems *)

(** ** The table of contents *)

Module TocTheory.
Import Toc.

Lemma push_loop (c : TocCategory) (l : list TocEntry) (flat : list FlatEntry) :
  fold_left (fun flat item => flat ++ [flat_of c item]) l flat
  = flat ++ map (flat_of c) l.
Proof.
  revert flat. induction l as [|x l IH]; intros flat; simpl.
  - by rewrite app_nil_r.
  - rewrite IH. by rewrite <- app_assoc.
Qed.

Lemma flatten_loop (cats : list TocCategory) (flat : list FlatEntry) :
  fold_left
    (fun flat c =>
       fold_left (fun flat item => flat ++ [flat_of c item]) (items c) flat)
    cats flat
  = flat ++ concat (map row cats).
Proof.
  revert flat. induction cats as [|c cats IH]; intros flat; simpl.
  - by rewrite app_nil_r.
  - rewrite IH, push_loop. by rewrite <- app_assoc.
Qed.

Lemma flattenToc_of_concat (cats : list TocCategory) :
  flattenToc_of cats = concat (map row cats).
Proof. unfold flattenToc_of. by rewrite flatten_loop. Qed.

Lemma length_row c : length (row c) = length (items c).
Proof. unfold row. by rewrite length_map. Qed.

Lemma position_lookup (cats : list TocCategory) (j i : nat) c e :
  cats !! j = Some c -> items c !! i = Some e ->
  flattenToc_of cats !! position cats j i = Some (flat_of c e).
Proof.
  rewrite flattenToc_of_concat. unfold position.
  revert j. induction cats as [|c0 cats IH]; intros j Hj Hi.
  - by rewrite lookup_nil in Hj.
  - destruct j as [|j]; simpl in *.
    + inversion Hj; subst c0. rewrite lookup_app_l.
      * unfold row. by rewrite list_lookup_fmap, Hi.
      * rewrite length_row. by apply lookup_lt_Some in Hi.
    + rewrite lookup_app_r by (rewrite length_row; lia).
      rewrite length_row.
      replace (length (items c0) + list_sum (map (fun c => length (items c)) (take j cats)) + i
                 - length (items c0))%nat
        with (list_sum (map (fun c => length (items c)) (take j cats)) + i)%nat by lia.
      by apply IH.
Qed.

Lemma prefix_sizes_mono (cats : list TocCategory) (j j' : nat) c :
  cats !! j = Some c -> (j < j')%nat ->
  (list_sum (map (fun c => length (items c)) (take j cats)) + length (items c)
   <= list_sum (map (fun c => length (items c)) (take j' cats)))%nat.
Proof.
  revert j j'. induction cats as [|c0 cats IH]; intros j j' Hj Hlt.
  - by rewrite lookup_nil in Hj.
  - destruct j' as [|j']; [lia|]. destruct j as [|j]; simpl in *.
    + inversion Hj; subst. lia.
    + specialize (IH j j' Hj). lia.
Qed.

Lemma position_mono (cats : list TocCategory) (j i j' i' : nat) c e :
  cats !! j = Some c -> items c !! i = Some e ->
  (j < j')%nat \/ (j = j' /\ (i < i')%nat) ->
  (position cats j i < position cats j' i')%nat.
Proof.
  intros Hj Hi [Hlt | [-> Hlt]]; unfold position.
  - pose proof (prefix_sizes_mono cats j j' c Hj Hlt).
    apply lookup_lt_Some in Hi. lia.
  - lia.
Qed.

(** Generic facts about [findIndex] and [find]. *)
Section Find.
Context {A : Type} (p : A -> bool).

Lemma findIndex_from_none (l : list A) (k : Z) :
  Forall (fun x => p x = false) l -> Js.findIndex_from p l k = -1.
Proof.
  intros Hl. revert k. induction Hl as [|x l Hx Hl IH]; intros k; simpl.
  - done.
  - by rewrite Hx.
Qed.

Lemma findIndex_from_first (l : list A) (k : Z) (i : nat) x :
  l !! i = Some x -> p x = true ->
  (forall j y, (j < i)%nat -> l !! j = Some y -> p y = false) ->
  Js.findIndex_from p l k = k + Z.of_nat i.
Proof.
  revert k i. induction l as [|a l IH]; intros k i Hi Hx Hbefore.
  - by rewrite lookup_nil in Hi.
  - destruct i as [|i]; simpl in *.
    + inversion Hi; subst. rewrite Hx. lia.
    + rewrite (Hbefore 0%nat a) by (done || lia).
      rewrite (IH (k + 1) i); [lia | done | done |].
      intros j y Hj Hy. apply (Hbefore (S j) y); [lia | done].
Qed.

Lemma find_none (l : list A) :
  Forall (fun x => p x = false) l -> find p l = None.
Proof.
  induction 1 as [|x l Hx Hl IH]; simpl; [done|]. by rewrite Hx.
Qed.
End Find.

Lemma has_slug_true s e : has_slug s e = true <-> slug (entry e) = s.
Proof. unfold has_slug. apply String.eqb_eq. Qed.

Lemma has_slug_false s e : has_slug s e = false <-> slug (entry e) <> s.
Proof. unfold has_slug. apply String.eqb_neq. Qed.

(** With pairwise distinct slugs, [findIndex] lands on the entry itself. *)
Lemma findIndex_slug (flat : list FlatEntry) (i : nat) e :
  NoDup (map (fun e => slug (entry e)) flat) ->
  flat !! i = Some e ->
  Js.findIndex (has_slug (slug (entry e))) flat = Z.of_nat i.
Proof.
  intros Hnd Hi. unfold Js.findIndex.
  rewrite (findIndex_from_first _ flat 0 i e Hi); [lia | by apply has_slug_true |].
  intros j y Hj Hy. apply has_slug_false. intros Heq.
  assert (j = i); [|lia].
  eapply NoDup_lookup; [exact Hnd | |].
  - rewrite list_lookup_fmap, Hy. simpl. by rewrite Heq.
  - by rewrite list_lookup_fmap, Hi.
Qed.

Lemma getNavigation_in_found (flat : list FlatEntry) (i : nat) e :
  NoDup (map (fun e => slug (entry e)) flat) ->
  flat !! i = Some e ->
  getNavigation_in flat (slug (entry e))
  = {| prev := nav_of <$> (if decide (i = 0%nat) then None else flat !! pred i);
       next := nav_of <$> flat !! S i |}.
Proof.
  intros Hnd Hi. unfold getNavigation_in.
  rewrite (findIndex_slug flat i e Hnd Hi).
  destruct (Z.eqb_spec (Z.of_nat i) (-1)) as [Heq|_]; [lia|].
  unfold Js.index. f_equal.
  - case_decide as Hz.
    + subst i. simpl. done.
    + destruct (Z.ltb_spec (Z.of_nat i - 1) 0) as [Hlt|_]; [lia|].
      replace (Z.to_nat (Z.of_nat i - 1)) with (pred i) by lia.
      by destruct (flat !! pred i).
  - destruct (Z.ltb_spec (Z.of_nat i + 1) 0) as [Hlt|_]; [lia|].
    replace (Z.to_nat (Z.of_nat i + 1)) with (S i) by lia.
    by destruct (flat !! S i).
Qed.

Lemma getNavigation_in_missing (flat : list FlatEntry) (s : string) :
  (forall e, e ∈ flat -> slug (entry e) <> s) ->
  getNavigation_in flat s = {| prev := None; next := None |}.
Proof.
  intros Hmiss. unfold getNavigation_in, Js.findIndex.
  rewrite findIndex_from_none; [done|].
  apply Forall_forall. intros e He. by apply has_slug_false, Hmiss.
Qed.

Lemma flatToc_slugs_NoDup : NoDup (map (fun e => slug (entry e)) flatToc).
Proof. apply (bool_decide_unpack _). by vm_compute. Qed.

Lemma NoDup_fmap_inj_on {A B} (f : A -> B) (l : list A) x y :
  NoDup (map f l) -> x ∈ l -> y ∈ l -> f x = f y -> x = y.
Proof.
  intros Hnd Hx Hy Hf.
  apply list_elem_of_lookup in Hx as [i Hi].
  apply list_elem_of_lookup in Hy as [j Hj].
  assert (i = j) as ->.
  { eapply NoDup_lookup; [exact Hnd | |].
    - by rewrite list_lookup_fmap, Hi.
    - rewrite list_lookup_fmap, Hj. simpl. by rewrite Hf. }
  congruence.
Qed.

Lemma find_slug (flat : list FlatEntry) e :
  NoDup (map (fun e => slug (entry e)) flat) -> e ∈ flat ->
  find (has_slug (slug (entry e))) flat = Some e.
Proof.
  intros Hnd He. induction flat as [|a flat IH]; [by apply elem_of_nil in He|].
  simpl. destruct (has_slug (slug (entry e)) a) eqn:Ha.
  - apply has_slug_true in Ha. f_equal.
    apply (NoDup_fmap_inj_on (fun e => slug (entry e)) (a :: flat)); try done.
    apply list_elem_of_here.
  - apply has_slug_false in Ha. apply elem_of_cons in He as [->|He]; [done|].
    apply IH; [|done]. simpl in Hnd. by apply NoDup_cons in Hnd as [_ ?].
Qed.



(** C8: [getNavigation] returns neither [prev] nor [next] for a slug that
    no flattened entry has; for the first entry it returns no [prev] and
    the second entry as [next]; for the last entry it returns no [next];
    for an entry between two others, [prev] and [next] are the entries
    immediately before and after it in flattened order. *)
Theorem getNavigation_neighbors :
  (forall s, (forall e, e ∈ flatToc -> slug (entry e) <> s) ->
      getNavigation s = {| prev := None; next := None |})
  /\ (forall e0 e1, flatToc !! 0%nat = Some e0 -> flatToc !! 1%nat = Some e1 ->
      getNavigation (slug (entry e0)) = {| prev := None; next := Some (nav_of e1) |})
  /\ (forall e, flatToc !! pred (length flatToc) = Some e ->
      next (getNavigation (slug (entry e))) = None)
  /\ (forall i p e n,
      flatToc !! i = Some p -> flatToc !! S i = Some e -> flatToc !! S (S i) = Some n ->
      getNavigation (slug (entry e))
      = {| prev := Some (nav_of p); next := Some (nav_of n) |}).
Proof.
  pose proof flatToc_slugs_NoDup as Hnd.
  split; [exact (getNavigation_in_missing flatToc)|].
  split; [|split].
  - intros e0 e1 H0 H1. unfold getNavigation.
    rewrite (getNavigation_in_found flatToc 0%nat e0 Hnd H0).
    by rewrite H1.
  - intros e He. unfold getNavigation.
    rewrite (getNavigation_in_found flatToc _ e Hnd He).
    rewrite (lookup_ge_None_2 flatToc (S _)); [done|].
    apply lookup_lt_Some in He. lia.
  - intros i p e n Hp He Hn. unfold getNavigation.
    rewrite (getNavigation_in_found flatToc (S i) e Hnd He).
    change (pred (S i)) with i. by rewrite Hp, Hn.
Qed.

Lemma getNavigation_neighbors_witness :
  getNavigation "concepts/routing"
  = {| prev := Some (mkNavEntry "Quick Start" (Some "Getting Started") "/docs/quickstart");
       next := Some (mkNavEntry "Context" (Some "Core Concepts") "/docs/concepts/context") |}.
Proof.
  apply (proj2 (proj2 (proj2 getNavigation_neighbors)) 2%nat
           (mkFlatEntry (mkTocEntry "Quick Start" "quickstart" "quickstart.md")
              "Getting Started" "/docs/quickstart")
           (mkFlatEntry (mkTocEntry "Routing" "concepts/routing" "concepts/routing.md")
              "Core Concepts" "/docs/concepts/routing")
           (mkFlatEntry (mkTocEntry "Context" "concepts/context" "concepts/context.md")
              "Core Concepts" "/docs/concepts/context"));
    reflexivity.
Defined.

(** C9: [getEntryBySlug] of the empty slug returns the entry whose address
    is the root address [/docs]; of the slug [nonexistent-slug], as of
    every slug that no entry has, it returns nothing; and the address of
    every flattened entry, of any catalog, is [/docs] when its slug is
    empty and the prefix [/docs/] followed by the slug when it is not. *)
Theorem getEntryBySlug_addresses :
  (exists e, getEntryBySlug "" = Some e /\ slug (entry e) = "" /\ href e = "/docs")
  /\ getEntryBySlug "nonexistent-slug" = None
  /\ (forall s, existsb (has_slug s) flatToc = false -> getEntryBySlug s = None)
  /\ (forall cats,
      Forall (fun e =>
                href e = if decide (slug (entry e) = "") then "/docs"
                         else "/docs/" +:+ slug (entry e))
             (flattenToc_of cats)).
Proof.
  split; [|split; [|split]].
  - eexists. unfold getEntryBySlug. simpl. repeat split; reflexivity.
  - reflexivity.
  - intros s Hs. unfold getEntryBySlug. apply find_none, Forall_forall.
    intros e He. destruct (has_slug s e) eqn:Hse; [|done].
    assert (existsb (has_slug s) flatToc = true) as Hex; [|congruence].
    apply existsb_exists. exists e. split; [by apply list_elem_of_In | done].
  - intros cats. rewrite flattenToc_of_concat. apply Forall_concat, Forall_forall.
    intros r Hr. apply list_elem_of_In, in_map_iff in Hr as (c & <- & _).
    apply Forall_forall. intros e He.
    apply list_elem_of_In, in_map_iff in He as (item & <- & _).
    simpl. unfold href_of. by destruct (slug item).
Qed.

Lemma getEntryBySlug_addresses_witness : getEntryBySlug "no/such/page" = None.
Proof.
  apply (proj1 (proj2 (proj2 getEntryBySlug_addresses)) "no/such/page"). reflexivity.
Defined.

End TocTheory.

(** ** The metadata header pattern *)

Module RegexTheory.
Import Regex.

Lemma append_assoc (a b c : string) : (a +:+ b) +:+ c = a +:+ (b +:+ c).
Proof. induction a as [|x a IH]; simpl; [done|]. by rewrite IH. Qed.

Lemma length_append (a b : string) :
  String.length (a +:+ b) = (String.length a + String.length b)%nat.
Proof. induction a as [|x a IH]; simpl; [done|]. by rewrite IH. Qed.

Lemma newline_other c s :
  Ascii.eqb c LF = false -> Ascii.eqb c CR = false -> newline (String c s) = None.
Proof. intros Hlf Hcr. simpl. by rewrite Hcr, Hlf. Qed.

Lemma closing_other c s :
  Ascii.eqb c LF = false -> Ascii.eqb c CR = false -> closing (String c s) = None.
Proof. intros Hlf Hcr. unfold closing. by rewrite newline_other. Qed.

(** What a successful match consumed. *)
Lemma literal_sound p s r : literal p s = Some r -> s = p +:+ r.
Proof.
  revert s. induction p as [|a p IH]; intros s Hs; simpl in *.
  - by inversion Hs.
  - destruct s as [|b s]; [done|].
    destruct (Ascii.eqb_spec a b) as [->|]; [|done].
    by rewrite (IH s Hs).
Qed.

Lemma newline_sound s r : newline s = Some r -> exists b, s = opt_cr b +:+ nl +:+ r.
Proof.
  destruct s as [|c s]; simpl; [done|].
  destruct (Ascii.eqb_spec c CR) as [->|_].
  - destruct s as [|d s]; [done|].
    destruct (Ascii.eqb_spec d LF) as [->|_]; [|done].
    intros [= <-]. by exists true.
  - destruct (Ascii.eqb_spec c LF) as [->|_]; [|done].
    intros [= <-]. by exists false.
Qed.

Lemma closing_sound s r :
  closing s = Some r ->
  exists b1 b2, s = opt_cr b1 +:+ nl +:+ "---" +:+ opt_cr b2 +:+ nl +:+ r.
Proof.
  unfold closing. destruct (newline s) as [r1|] eqn:H1; [|done].
  destruct (literal "---" r1) as [r2|] eqn:H2; [|done]. intros H3.
  apply newline_sound in H1 as [b1 ->]. apply literal_sound in H2 as ->.
  apply newline_sound in H3 as [b2 ->]. by exists b1, b2.
Qed.

Lemma lazy_group_sound s g r :
  lazy_group s = Some (g, r) ->
  exists b1 b2, s = g +:+ opt_cr b1 +:+ nl +:+ "---" +:+ opt_cr b2 +:+ nl +:+ r.
Proof.
  revert g. induction s as [|c s IH]; intros g; simpl.
  - destruct (closing "") eqn:Hc; [by vm_compute in Hc | done].
  - destruct (closing (String c s)) as [rest|] eqn:Hc.
    + intros [= <- <-]. by apply closing_sound in Hc.
    + destruct (lazy_group s) as [[g' r']|]; [|done].
      intros [= <- <-]. destruct (IH g' eq_refl) as (b1 & b2 & ->).
      by exists b1, b2.
Qed.

(** A match of the header pattern has the shape the pattern describes:
    the opening delimiter line, the block, the closing delimiter line
    with its line break, and the body. *)
Lemma frontmatterRegex_sound content y md :
  frontmatterRegex content = Some (y, md) ->
  exists b0 b1 b2,
    content = "---" +:+ opt_cr b0 +:+ nl +:+ y
                +:+ opt_cr b1 +:+ nl +:+ "---" +:+ opt_cr b2 +:+ nl +:+ md.
Proof.
  unfold frontmatterRegex.
  destruct (literal "---" content) as [r|] eqn:H1; [|done].
  destruct (newline r) as [r'|] eqn:H2; [|done]. intros H3.
  apply literal_sound in H1 as ->. apply newline_sound in H2 as [b0 ->].
  apply lazy_group_sound in H3 as (b1 & b2 & ->).
  by exists b0, b1, b2.
Qed.

(** The body of a match is strictly shorter than the input. *)
Lemma frontmatterRegex_shorter content y md :
  frontmatterRegex content = Some (y, md) ->
  (String.length md < String.length content)%nat.
Proof.
  intros (b0 & b1 & b2 & ->)%frontmatterRegex_sound.
  rewrite !length_append. simpl. lia.
Qed.

(** Conversely, an input of that shape is matched, and the block returned
    is no longer than the block of any such reading of the input: the
    group is lazy. *)
Lemma closing_complete b1 b2 md :
  closing (opt_cr b1 +:+ nl +:+ "---" +:+ opt_cr b2 +:+ nl +:+ md) = Some md.
Proof. by destruct b1, b2. Qed.

Lemma lazy_group_complete g rest r :
  closing rest = Some r ->
  exists g' r', lazy_group (g +:+ rest) = Some (g', r')
                /\ (String.length g' <= String.length g)%nat.
Proof.
  intros Hc. induction g as [|c g IH].
  - exists EmptyString, r. change ("" +:+ rest) with rest.
    destruct rest as [|c rest]; [by vm_compute in Hc|].
    cbn [lazy_group]. by rewrite Hc.
  - change (String c g +:+ rest) with (String c (g +:+ rest)). cbn [lazy_group].
    destruct (closing (String c (g +:+ rest))) as [r0|].
    + exists EmptyString, r0. split; [done|]. simpl. lia.
    + destruct IH as (g' & r' & -> & Hle). exists (String c g'), r'.
      split; [done|]. simpl. lia.
Qed.

Lemma frontmatterRegex_complete b0 b1 b2 y md :
  exists y' md',
    frontmatterRegex ("---" +:+ opt_cr b0 +:+ nl +:+ y
                        +:+ opt_cr b1 +:+ nl +:+ "---" +:+ opt_cr b2 +:+ nl +:+ md)
    = Some (y', md')
    /\ (String.length y' <= String.length y)%nat.
Proof.
  destruct (lazy_group_complete y _ md (closing_complete b1 b2 md))
    as (y' & md' & Hl & Hle).
  exists y', md'. split; [|done]. unfold frontmatterRegex. by destruct b0.
Qed.

Lemma one_line_cons c s :
  one_line (String c s) = true ->
  Ascii.eqb c LF = false /\ Ascii.eqb c CR = false /\ one_line s = true.
Proof.
  simpl. intros H. apply andb_prop in H as [H Hs]. apply andb_prop in H as [H1 H2].
  apply negb_true_iff in H1, H2. done.
Qed.

Lemma one_line_append a b :
  one_line a = true -> one_line b = true -> one_line (a +:+ b) = true.
Proof.
  intros Ha Hb. induction a as [|c a IH]; simpl; [done|].
  apply one_line_cons in Ha as (H1 & H2 & Ha). by rewrite H1, H2, IH.
Qed.

(** A block without a line break, closed by a delimiter line: the lazy
    group is the block, the greedy group is all that follows. *)
Lemma lazy_group_one_line g body :
  one_line g = true ->
  lazy_group (g +:+ nl +:+ "---" +:+ nl +:+ body) = Some (g, body).
Proof.
  intros Hg. induction g as [|c g IH].
  - reflexivity.
  - apply one_line_cons in Hg as (H1 & H2 & Hg).
    change (String c g +:+ nl +:+ "---" +:+ nl +:+ body)
      with (String c (g +:+ nl +:+ "---" +:+ nl +:+ body)).
    cbn [lazy_group]. rewrite closing_other by done. by rewrite IH.
Qed.

Lemma frontmatterRegex_one_line g body :
  one_line g = true ->
  frontmatterRegex ("---" +:+ nl +:+ g +:+ nl +:+ "---" +:+ nl +:+ body)
  = Some (g, body).
Proof. intros Hg. unfold frontmatterRegex. simpl. by apply lazy_group_one_line. Qed.

Lemma lines_cons_LF s : lines (String LF s) = EmptyString :: lines s.
Proof. reflexivity. Qed.

Lemma lines_nonempty s : lines s <> [].
Proof.
  destruct s as [|c s]; simpl; [done|].
  destruct (Ascii.eqb c LF); [done|]. by destruct (lines s).
Qed.

Lemma tail_lines_cons c s l :
  l ∈ tail (lines s) -> l ∈ tail (lines (String c s)).
Proof.
  simpl. destruct (Ascii.eqb c LF).
  - simpl. destruct (lines s); simpl; [done|]. apply list_elem_of_further.
  - by destruct (lines s).
Qed.

Lemma head_lines_after_LF s l :
  head (lines s) = Some l -> l ∈ tail (lines (String LF s)).
Proof.
  rewrite lines_cons_LF. simpl. destruct (lines s) as [|l' ls]; [done|].
  intros [= ->]. apply list_elem_of_here.
Qed.

(** After a line feed: if [---] and a line break follow, the line that
    starts here is a delimiter line. *)
Lemma delimiter_after_LF (s : string) (b : bool) r r' :
  literal "---" (s +:+ unterminated b) = Some r -> newline r = Some r' ->
  exists l, head (lines s) = Some l /\ is_delimiter l = true.
Proof.
  unfold unterminated, nl.
  destruct s as [|c1 s]; [by destruct b|].
  destruct s as [|c2 s]; simpl.
  { destruct (Ascii.eqb "-" c1); [|done]. by destruct b. }
  destruct s as [|c3 s]; simpl.
  { destruct (Ascii.eqb "-" c1); [|done]. destruct (Ascii.eqb "-" c2); [|done].
    by destruct b. }
  destruct (Ascii.eqb_spec "-" c1) as [<-|]; [|done].
  destruct (Ascii.eqb_spec "-" c2) as [<-|]; [|done].
  destruct (Ascii.eqb_spec "-" c3) as [<-|]; [|done].
  intros [= <-]. destruct s as [|d s].
  { intros _. by exists "---". }
  simpl. destruct (Ascii.eqb_spec d CR) as [->|Hcr].
  - destruct s as [|e s].
    + intros _. by exists ("---" +:+ cr).
    + simpl. destruct (Ascii.eqb_spec e LF) as [->|]; [|done].
      intros _. exists ("---" +:+ cr). split; [|done].
      simpl. by destruct (lines s).
  - destruct (Ascii.eqb_spec d LF) as [->|]; [|done].
    intros _. exists "---". split; [|done]. simpl. by destruct (lines s).
Qed.

Lemma newline_inv x r :
  newline x = Some r -> x = String LF r \/ x = String CR (String LF r).
Proof. intros [[] ->]%newline_sound; [by right | by left]. Qed.

Lemma closing_unterminated_None (s : string) (b : bool) :
  (forall l, l ∈ tail (lines s) -> is_delimiter l = false) ->
  closing (s +:+ unterminated b) = None.
Proof.
  intros Hs. destruct (closing (s +:+ unterminated b)) as [r'|] eqn:Hc; [|done].
  exfalso. unfold closing in Hc.
  destruct (newline (s +:+ unterminated b)) as [r1|] eqn:Hn; [|done].
  destruct (literal "---" r1) as [r|] eqn:Hl; [|done].
  apply newline_inv in Hn as [Hn|Hn].
  - destruct s as [|c s].
    + unfold unterminated, nl in Hn. simpl in Hn. injection Hn as <-.
      apply literal_sound in Hl. simpl in Hl. injection Hl as <-. by destruct b.
    + simpl in Hn. injection Hn as -> <-.
      destruct (delimiter_after_LF s b r r' Hl Hc) as (l & Hhead & Hdel).
      rewrite (Hs l) in Hdel; [done|]. by apply head_lines_after_LF.
  - destruct s as [|c s]; [by destruct b|].
    simpl in Hn. injection Hn as -> Hn.
    destruct s as [|d s].
    + unfold unterminated, nl in Hn. simpl in Hn. injection Hn as <-.
      apply literal_sound in Hl. simpl in Hl. injection Hl as <-. by destruct b.
    + simpl in Hn. injection Hn as -> <-.
      destruct (delimiter_after_LF s b r r' Hl Hc) as (l & Hhead & Hdel).
      rewrite (Hs l) in Hdel; [done|].
      apply tail_lines_cons. by apply head_lines_after_LF.
Qed.

(** No closing delimiter is found when the last delimiter line has no
    line feed after it and no line of the block past its first is a
    delimiter line. *)
Lemma lazy_group_unterminated (s : string) (b : bool) :
  (forall l, l ∈ tail (lines s) -> is_delimiter l = false) ->
  lazy_group (s +:+ unterminated b) = None.
Proof.
  induction s as [|c s IH]; intros Hs.
  - by destruct b.
  - change (String c s +:+ unterminated b) with (String c (s +:+ unterminated b)).
    cbn [lazy_group].
    change (String c (s +:+ unterminated b)) with (String c s +:+ unterminated b).
    rewrite closing_unterminated_None by done.
    rewrite IH; [done|]. intros l Hl. by apply Hs, tail_lines_cons.
Qed.

Lemma frontmatterRegex_unterminated (block : string) (b0 b : bool) :
  (forall l, l ∈ tail (lines block) -> is_delimiter l = false) ->
  frontmatterRegex ("---" +:+ opt_cr b0 +:+ nl +:+ block +:+ nl +:+ "---" +:+ opt_cr b)
  = None.
Proof.
  intros Hs. unfold frontmatterRegex.
  destruct b0; simpl; by apply (lazy_group_unterminated block b).
Qed.

Lemma frontmatterRegex_no_dashes content :
  literal "---" content = None -> frontmatterRegex content = None.
Proof. unfold frontmatterRegex. by intros ->. Qed.

End RegexTheory.

(** ** [parseFrontmatter] and the header of a document *)

Section FrontmatterTheory.
Context `{Packages}.
Import Regex.

Lemma parseMarkdown_unfold (input : string) :
  parseMarkdown input
  = render_document (data (parseFrontmatter input)) (content (parseFrontmatter input)).
Proof. unfold parseMarkdown, render_document. by destruct (parseFrontmatter input). Qed.

Lemma parseFrontmatter_no_match (input : string) :
  frontmatterRegex input = None ->
  parseFrontmatter input = {| data := empty_object; content := input |}.
Proof. unfold parseFrontmatter. by intros ->. Qed.

Lemma parseFrontmatter_yaml_error (input y md : string) :
  frontmatterRegex input = Some (y, md) -> is_err (parseYaml y) = true ->
  parseFrontmatter input = {| data := empty_object; content := md |}.
Proof.
  unfold parseFrontmatter. intros -> Herr. by destruct (parseYaml y).
Qed.

Lemma parseFrontmatter_yaml_ok (input y md : string) v :
  frontmatterRegex input = Some (y, md) -> parseYaml y = Ok v ->
  parseFrontmatter input = {| data := nullish v empty_object; content := md |}.
Proof. unfold parseFrontmatter. by intros -> ->. Qed.

(** C3 (amended): when the header pattern does not match (as when the
    input does not start with [---]), the metadata is empty and the body
    is the entire input; when it matches and the block fails to parse,
    the metadata is empty and the body is the text after the closing
    delimiter line, the input being the header followed by that body, so
    the header is dropped from the body. [parseFrontmatter] is total: it
    raises in neither case. *)
Theorem parseFrontmatter_degrades (input : string) :
  (frontmatterRegex input = None ->
   parseFrontmatter input = {| data := empty_object; content := input |})
  /\ (literal "---" input = None ->
      parseFrontmatter input = {| data := empty_object; content := input |})
  /\ (forall y md,
      frontmatterRegex input = Some (y, md) -> is_err (parseYaml y) = true ->
      parseFrontmatter input = {| data := empty_object; content := md |}
      /\ (String.length md < String.length input)%nat
      /\ exists b0 b1 b2,
          input = ("---" +:+ opt_cr b0 +:+ nl +:+ y
                     +:+ opt_cr b1 +:+ nl +:+ "---" +:+ opt_cr b2 +:+ nl) +:+ md).
Proof.
  split; [exact (parseFrontmatter_no_match input)|]. split.
  - intros Hl. by apply parseFrontmatter_no_match, RegexTheory.frontmatterRegex_no_dashes.
  - intros y md Hm Herr. split; [by apply (parseFrontmatter_yaml_error input y md)|].
    split; [by apply (RegexTheory.frontmatterRegex_shorter input y md)|].
    destruct (RegexTheory.frontmatterRegex_sound input y md Hm) as (b0 & b1 & b2 & ->).
    exists b0, b1, b2. by rewrite !RegexTheory.append_assoc.
Qed.

(** C4: for an input made of the line [---], the line [title: X], the
    line [---] and a body, where [X] has no line break and the metadata
    reader reads [title: X] as a mapping with the string [X] under
    [title], the metadata returned is that mapping and the markup and
    headings are those of the body alone. *)
Theorem parseMarkdown_well_formed_header (X body : string) (v : Value) :
  one_line X = true ->
  parseYaml ("title: " +:+ X) = Ok v ->
  get_field "title" v = Some (VString X) ->
  parseFrontmatter ("---" +:+ nl +:+ "title: " +:+ X +:+ nl +:+ "---" +:+ nl +:+ body)
  = {| data := v; content := body |}
  /\ parseMarkdown ("---" +:+ nl +:+ "title: " +:+ X +:+ nl +:+ "---" +:+ nl +:+ body)
     = render_document v body
  /\ forall st doc st',
      parseMarkdown ("---" +:+ nl +:+ "title: " +:+ X +:+ nl +:+ "---" +:+ nl +:+ body) st
      = (Ok doc, st') ->
      get_field "title" (frontmatter doc) = Some (VString X)
      /\ marked_parse body st = (Ok (html doc), st').
Proof.
  intros HX Hyaml Htitle.
  assert (parseFrontmatter
            ("---" +:+ nl +:+ "title: " +:+ X +:+ nl +:+ "---" +:+ nl +:+ body)
          = {| data := v; content := body |}) as Hfm.
  { rewrite (parseFrontmatter_yaml_ok _ ("title: " +:+ X) body v).
    - by destruct v.
    - rewrite <- (RegexTheory.frontmatterRegex_one_line ("title: " +:+ X) body).
      + by rewrite !RegexTheory.append_assoc.
      + by apply RegexTheory.one_line_append.
    - done. }
  split; [done|]. split.
  - by rewrite parseMarkdown_unfold, Hfm.
  - intros st doc st'. rewrite parseMarkdown_unfold, Hfm. simpl.
    unfold render_document, bind, getHeadingList, get, ret.
    destruct (marked_parse body st) as [[h|e] st1]; [|done].
    intros [= <- <-]. done.
Qed.

(** C10: an input made of the line [---], a block and a last line [---]
    with no line feed after it, where no line of the block past its first
    is a delimiter line, has no metadata header: the metadata is empty and
    the body is the entire input, delimiter lines and block included.
    [b0] and [b] say whether the two delimiters carry a carriage return. *)
Theorem parseFrontmatter_unterminated_header (block : string) (b0 b : bool) :
  no_delimiter_line (tail (lines block)) = true ->
  parseFrontmatter ("---" +:+ opt_cr b0 +:+ nl +:+ block +:+ nl +:+ "---" +:+ opt_cr b)
  = {| data := empty_object;
       content := "---" +:+ opt_cr b0 +:+ nl +:+ block +:+ nl +:+ "---" +:+ opt_cr b |}
  /\ parseMarkdown ("---" +:+ opt_cr b0 +:+ nl +:+ block +:+ nl +:+ "---" +:+ opt_cr b)
     = render_document empty_object
         ("---" +:+ opt_cr b0 +:+ nl +:+ block +:+ nl +:+ "---" +:+ opt_cr b).
Proof.
  intros Hlines.
  assert (frontmatterRegex
            ("---" +:+ opt_cr b0 +:+ nl +:+ block +:+ nl +:+ "---" +:+ opt_cr b)
          = None) as Hno.
  { apply RegexTheory.frontmatterRegex_unterminated. intros l Hl.
    unfold no_delimiter_line in Hlines. rewrite forallb_forall in Hlines.
    apply negb_true_iff, Hlines. by apply list_elem_of_In. }
  split.
  - by apply parseFrontmatter_no_match.
  - by rewrite parseMarkdown_unfold, (parseFrontmatter_no_match _ Hno).
Qed.

End FrontmatterTheory.

(** ** The highlighting pass *)

Section WalkTheory.
Context `{Packages}.

(** Induction on a token with the property known of its children. *)
Lemma Token_nested_ind (P : Token -> Prop) :
  (forall t, Forall P (tokens t) -> P t) -> forall t, P t.
Proof.
  intros IH. fix go 1. intros [ty rw tx lg dp hl ch]. apply IH. simpl.
  induction ch as [|c ch IHch]; constructor; [apply go | exact IHch].
Qed.

Lemma frame_refl st : frame st st.
Proof. by repeat split. Qed.

Lemma frame_trans st1 st2 st3 : frame st1 st2 -> frame st2 st3 -> frame st1 st3.
Proof. intros (?&?&?) (?&?&?). repeat split; congruence. Qed.

Lemma getHighlighter_spec st :
  exists st', getHighlighter st = (effective st, st') /\ frame st st'.
Proof.
  unfold getHighlighter, bind, get, effective. simpl.
  destruct (highlighter st) as [hl|] eqn:Hhl.
  - exists st. split; [done|]. apply frame_refl.
  - unfold lift. destruct (createHighlighter [kageTheme] langs) as [hl|e] eqn:Hc.
    + eexists. split; [reflexivity|]. unfold frame, effective. simpl. by rewrite Hhl.
    + exists st. split; [done|]. apply frame_refl.
Qed.

Lemma highlight_spec code lang st :
  exists st', highlight code lang st = (highlight_result (effective st) code lang, st')
              /\ frame st st'.
Proof.
  unfold highlight, bind. destruct (getHighlighter_spec st) as (st' & -> & Hf).
  exists st'. split; [|done]. unfold highlight_result, lift.
  by destruct (effective st).
Qed.

Lemma walkTokens_hook_spec t st :
  exists st', walkTokens_hook t st = (hook_result (effective st) t, st') /\ frame st st'.
Proof.
  unfold walkTokens_hook, hook_result.
  destruct (String.eqb (type t) "code").
  - unfold bind.
    destruct (highlight_spec (text t) (Some (Js.or_default (lang t) "typescript")) st)
      as (st' & -> & Hf).
    exists st'. split; [|done].
    by destruct (highlight_result _ _ _).
  - exists st. split; [done|]. apply frame_refl.
Qed.

Lemma mapM_spec {A B} (f : A -> M B) (g : Result Highlighter -> A -> Result B) l :
  Forall (fun x => forall st, exists st', f x st = (g (effective st) x, st') /\ frame st st') l ->
  forall st, exists st', mapM f l st = (mapR (g (effective st)) l, st') /\ frame st st'.
Proof.
  induction 1 as [|x l Hx Hl IH]; intros st; simpl.
  - exists st. split; [done|]. apply frame_refl.
  - unfold bind. destruct (Hx st) as (st1 & -> & Hf1).
    destruct (g (effective st) x) as [y|e].
    + destruct (IH st1) as (st2 & -> & Hf2).
      assert (effective st1 = effective st) as -> by apply Hf1.
      exists st2. split; [|by eapply frame_trans].
      by destruct (mapR _ l).
    + by exists st1.
Qed.

Lemma walkTokens_token_eq t :
  walkTokens_token t
  = bind (walkTokens_hook t) (fun t' =>
      bind (mapM walkTokens_token (tokens t)) (fun ch => ret (set_tokens t' ch))).
Proof. by destruct t. Qed.

Lemma walk_result_eq eh t :
  walk_result eh t
  = match hook_result eh t with
    | Ok t' =>
        match mapR (walk_result eh) (tokens t) with
        | Ok ch => Ok (set_tokens t' ch)
        | Err e => Err e
        end
    | Err e => Err e
    end.
Proof. by destruct t. Qed.

Lemma walkTokens_token_spec t :
  forall st, exists st',
    walkTokens_token t st = (walk_result (effective st) t, st') /\ frame st st'.
Proof.
  induction t as [t IH] using Token_nested_ind. intros st.
  rewrite walkTokens_token_eq, walk_result_eq. unfold bind.
  destruct (walkTokens_hook_spec t st) as (st1 & -> & Hf1).
  destruct (hook_result _ _) as [t'|e]; [|by exists st1].
  destruct (mapM_spec walkTokens_token walk_result (tokens t) IH st1) as (st2 & -> & Hf2).
  assert (effective st1 = effective st) as -> by apply Hf1.
  exists st2. split; [|by eapply frame_trans].
  by destruct (mapR _ (tokens t)).
Qed.

Lemma walkTokens_spec l st :
  exists st', walkTokens l st = (mapR (walk_result (effective st)) l, st') /\ frame st st'.
Proof.
  apply mapM_spec, Forall_forall. intros t _. apply walkTokens_token_spec.
Qed.

Lemma mapR_ok {A B} (f : A -> Result B) l :
  is_ok (mapR f l) = forallb (fun x => is_ok (f x)) l.
Proof.
  induction l as [|x l IH]; simpl; [done|].
  destruct (f x); simpl; [|done]. rewrite <- IH. by destruct (mapR f l).
Qed.

Lemma forallb_flat_map {A B} (p : B -> bool) (f : A -> list B) l :
  forallb p (flat_map f l) = forallb (fun x => forallb p (f x)) l.
Proof.
  induction l as [|x l IH]; simpl; [done|]. by rewrite forallb_app, IH.
Qed.

Lemma forallb_ext_in {A} (p q : A -> bool) l :
  (forall x, In x l -> p x = q x) -> forallb p l = forallb q l.
Proof.
  induction l as [|x l IH]; simpl; intros Hpq; [done|].
  rewrite Hpq by (by left). rewrite IH; [done|]. intros y Hy. apply Hpq. by right.
Qed.

Lemma subtokens_eq t : subtokens t = t :: flat_map subtokens (tokens t).
Proof. by destruct t. Qed.

(** The traversal succeeds exactly when the hook succeeds on every token. *)
Lemma walk_result_ok eh t :
  is_ok (walk_result eh t) = forallb (fun x => is_ok (hook_result eh x)) (subtokens t).
Proof.
  induction t as [t IH] using Token_nested_ind.
  rewrite walk_result_eq, subtokens_eq. simpl.
  destruct (hook_result eh t) as [t'|e]; simpl; [|done].
  rewrite forallb_flat_map.
  transitivity (is_ok (mapR (walk_result eh) (tokens t))).
  { by destruct (mapR _ (tokens t)). }
  rewrite mapR_ok. apply forallb_ext_in.
  intros x Hx. rewrite Forall_forall in IH. by apply IH, list_elem_of_In.
Qed.

Lemma walk_all_ok eh l :
  is_ok (mapR (walk_result eh) l)
  = forallb (fun x => is_ok (hook_result eh x)) (all_tokens l).
Proof.
  unfold all_tokens. rewrite mapR_ok, forallb_flat_map.
  apply forallb_ext_in. intros x _. apply walk_result_ok.
Qed.

(** The hook fails on a code token exactly when its [highlight] call does. *)
Lemma hook_result_ok eh t :
  is_ok (hook_result eh t)
  = if String.eqb (type t) "code"
    then is_ok (highlight_result eh (text t) (Some (tag t)))
    else true.
Proof.
  unfold hook_result, tag. destruct (String.eqb (type t) "code"); [|done].
  by destruct (highlight_result _ _ _).
Qed.

End WalkTheory.

(** ** The heading identifiers *)

Section SluggerTheory.
Context `{Packages}.

Lemma append_empty_r (s : string) : s +:+ "" = s.
Proof. induction s as [|c s IH]; simpl; [done|]. by rewrite IH. Qed.

Lemma candidate_inj o m m' : candidate o m = candidate o m' -> m = m'.
Proof.
  unfold candidate. intros Heq.
  apply (inj (String.app o)) in Heq. apply (inj (String.app "-")) in Heq.
  by apply (inj pretty) in Heq.
Qed.

Lemma candidate_ne o m : candidate o m <> o.
Proof.
  unfold candidate. intros Heq. rewrite <- (append_empty_r o) in Heq at 2.
  apply (inj (String.app o)) in Heq. discriminate.
Qed.

Lemma slug_loop_exit fuel (occ : gmap string nat) o r :
  occ !! r = None -> slug_loop fuel occ o r = (r, <[r := 0%nat]> occ).
Proof. intros Hr. destruct fuel; simpl; by rewrite ?Hr. Qed.

(** With more fuel than there are keys that later candidates can hit,
    the loop ends by its own test: the identifier it returns was not a
    key, and it is the only key added. *)
Lemma slug_loop_exits fuel : forall (occ : gmap string nat) o r (D : gset string),
  (is_Some (occ !! r) -> is_Some (occ !! o)) ->
  (forall m, (default 0 (occ !! o) < m)%nat ->
             is_Some (occ !! candidate o m) -> candidate o m ∈ D) ->
  (size D < fuel)%nat ->
  exists r' occ',
    slug_loop fuel occ o r = (r', occ')
    /\ occ !! r' = None /\ occ' !! r' = Some 0%nat
    /\ dom occ' = {[r']} ∪ dom occ.
Proof.
  induction fuel as [|f IH]; intros occ o r D Ho HD Hsize; [lia|].
  destruct (occ !! r) as [x|] eqn:Hr.
  2:{ exists r, (<[r := 0%nat]> occ). rewrite slug_loop_exit by done.
      repeat split; [done | by rewrite lookup_insert_eq | by rewrite dom_insert_L]. }
  simpl. rewrite Hr.
  destruct (Ho (mk_is_Some _ _ eq_refl)) as [n0 Hn0]. rewrite Hn0. simpl.
  change (o +:+ "-" +:+ pretty (S n0)) with (candidate o (S n0)).
  set (occ1 := <[o := S n0]> occ). set (r1 := candidate o (S n0)).
  assert (r1 <> o) as Hr1 by apply candidate_ne.
  assert (dom occ1 = dom occ) as Hdom.
  { unfold occ1. rewrite dom_insert_L. apply elem_of_dom_2 in Hn0. set_solver. }
  destruct (occ1 !! r1) as [y|] eqn:Hr1'.
  - destruct (IH occ1 o r1 (D ∖ {[r1]})) as (r' & occ' & Hloop & Hfresh & Hnew & Hd).
    + intros _. unfold occ1. rewrite lookup_insert_eq. by eexists.
    + intros m Hm Hsome. unfold occ1 in Hm. rewrite lookup_insert_eq in Hm. simpl in Hm.
      apply elem_of_difference. split.
      * apply HD; [rewrite Hn0; simpl; lia|].
        unfold occ1 in Hsome. by rewrite lookup_insert_ne in Hsome by (symmetry; apply candidate_ne).
      * intros Hin%elem_of_singleton. apply candidate_inj in Hin. lia.
    + assert (r1 ∈ D) as Hin.
      { apply HD; [rewrite Hn0; simpl; lia|].
        unfold occ1 in Hr1'. rewrite lookup_insert_ne in Hr1' by done. by eexists. }
      rewrite size_difference by set_solver. rewrite size_singleton.
      assert (size D <> 0%nat); [|lia].
      intros Hz%size_empty_inv. set_solver.
    + exists r', occ'. split; [done|]. split; [|split; [done|by rewrite Hd, Hdom]].
      unfold occ1 in Hfresh. destruct (decide (o = r')) as [<-|Hne].
      * by rewrite lookup_insert_eq in Hfresh.
      * by rewrite lookup_insert_ne in Hfresh.
  - exists r1, (<[r1 := 0%nat]> occ1). rewrite slug_loop_exit by done.
    split; [done|]. split; [|split].
    + unfold occ1 in Hr1'. by rewrite lookup_insert_ne in Hr1' by done.
    + by rewrite lookup_insert_eq.
    + by rewrite dom_insert_L, Hdom.
Qed.

Lemma slugger_slug_spec value st :
  exists r occ',
    slugger_slug value st = (Ok r, mkState (highlighter st) (headings st) occ')
    /\ occurrences st !! r = None
    /\ dom occ' = {[r]} ∪ dom (occurrences st).
Proof.
  unfold slugger_slug.
  destruct (slug_loop_exits (S (size (occurrences st))) (occurrences st)
              (slug_base value) (slug_base value) (dom (occurrences st)))
    as (r & occ' & -> & Hfresh & _ & Hdom).
  - done.
  - intros m _ Hsome. by apply elem_of_dom.
  - rewrite size_dom. lia.
  - by exists r, occ'.
Qed.

Lemma gfm_heading_spec t st :
  exists id out occ',
    gfm_heading t st
    = (Ok out,
       mkState (highlighter st)
         (headings st ++ [mkGfmHeading (depth t) (heading_text t) id (heading_raw t)])
         occ')
    /\ occurrences st !! id = None
    /\ dom occ' = {[id]} ∪ dom (occurrences st).
Proof.
  unfold gfm_heading, bind.
  destruct (slugger_slug_spec (heading_raw t) st) as (r & occ' & -> & Hfresh & Hdom).
  exists r. eexists. exists occ'. split; [reflexivity|]. done.
Qed.

End SluggerTheory.

(** ** The parser *)

Section ParserTheory.
Context `{Packages}.

Lemma parser_token_eq t :
  parser_token t
  = if String.eqb (type t) "code" then ret (renderer_code t)
    else if String.eqb (type t) "heading" then gfm_heading t
    else bind (mapM parser_token (tokens t)) (fun bodies => ret (render_token t bodies)).
Proof. by destruct t. Qed.

Lemma rendered_headings_eq t :
  rendered_headings t
  = if String.eqb (type t) "code" then []
    else if String.eqb (type t) "heading" then [t]
    else flat_map rendered_headings (tokens t).
Proof. by destruct t. Qed.

Lemma adds_headings_nil st : adds_headings [] st st [].
Proof.
  unfold adds_headings. rewrite app_nil_r.
  split; [done|]. split; [done|]. split; [done|]. split; [constructor|].
  split; [|constructor]. by intros h ?%elem_of_nil.
Qed.

Lemma adds_headings_app ts1 ts2 st1 st2 st3 new1 new2 :
  adds_headings ts1 st1 st2 new1 -> adds_headings ts2 st2 st3 new2 ->
  adds_headings (ts1 ++ ts2) st1 st3 (new1 ++ new2).
Proof.
  intros (Hh1 & Hl1 & Hd1 & Hn1 & Hf1 & Ht1) (Hh2 & Hl2 & Hd2 & Hn2 & Hf2 & Ht2).
  split; [congruence|]. split; [by rewrite Hl2, Hl1, app_assoc|].
  split; [set_solver|]. split; [|split].
  - rewrite map_app. apply NoDup_app. split; [done|]. split; [|done].
    intros i Hi1 Hi2.
    apply list_elem_of_In, in_map_iff in Hi1 as (h1 & <- & Hin1%list_elem_of_In).
    apply list_elem_of_In, in_map_iff in Hi2 as (h2 & Heq & Hin2%list_elem_of_In).
    destruct (Hf1 h1 Hin1) as [_ Hdom]. destruct (Hf2 h2 Hin2) as [Hnone _].
    rewrite Heq in Hnone. apply not_elem_of_dom in Hnone. done.
  - intros h [Hin|Hin]%elem_of_app.
    + destruct (Hf1 h Hin) as [Hnone Hdom]. split; [done|set_solver].
    + destruct (Hf2 h Hin) as [Hnone Hdom]. split; [|done].
      apply not_elem_of_dom. apply not_elem_of_dom in Hnone. set_solver.
  - by apply Forall2_app.
Qed.

Lemma parser_list_spec l :
  Forall (fun t => forall st, exists out st' new,
            parser_token t st = (Ok out, st')
            /\ adds_headings (rendered_headings t) st st' new) l ->
  forall st, exists outs st' new,
    mapM parser_token l st = (Ok outs, st')
    /\ adds_headings (flat_map rendered_headings l) st st' new.
Proof.
  induction 1 as [|t l Ht Hl IH]; intros st; simpl.
  - exists [], st, []. split; [done|]. apply adds_headings_nil.
  - unfold bind. destruct (Ht st) as (out & st1 & new1 & -> & Ha1).
    destruct (IH st1) as (outs & st2 & new2 & -> & Ha2).
    exists (out :: outs), st2, (new1 ++ new2). split; [done|].
    by eapply adds_headings_app.
Qed.

(** The parser never raises; it leaves [highlighter] alone and records
    one heading for each heading token, in document order, each with an
    identifier not given out before. *)
Lemma parser_token_spec t :
  forall st, exists out st' new,
    parser_token t st = (Ok out, st')
    /\ adds_headings (rendered_headings t) st st' new.
Proof.
  induction t as [t IH] using Token_nested_ind. intros st.
  rewrite parser_token_eq, rendered_headings_eq.
  destruct (String.eqb (type t) "code").
  { exists (renderer_code t), st, []. split; [done|]. apply adds_headings_nil. }
  destruct (String.eqb (type t) "heading").
  { destruct (gfm_heading_spec t st) as (id & out & occ' & -> & Hfresh & Hdom).
    eexists out, _, [heading_of t id]. split; [reflexivity|].
    split; [done|]. split; [done|]. simpl. split; [set_solver|].
    split; [apply NoDup_singleton|]. split.
    - intros h ->%list_elem_of_singleton. simpl. split; [done|set_solver].
    - by repeat constructor. }
  unfold bind. destruct (parser_list_spec (tokens t) IH st) as (outs & st' & new & -> & Ha).
  by exists (render_token t outs), st', new.
Qed.

Lemma parser_spec l st :
  exists out st' new,
    parser l st = (Ok out, st')
    /\ adds_headings (flat_map rendered_headings l) st st' new.
Proof.
  unfold parser, bind.
  destruct (parser_list_spec l) with (st := st) as (outs & st' & new & -> & Ha).
  { apply Forall_forall. intros t _. apply parser_token_spec. }
  by eexists _, st', new.
Qed.

End ParserTheory.

(** ** The whole pipeline *)

Section PipelineTheory.
Context `{Packages}.

Lemma GfmOnly_ret {A} (a : A) : GfmOnly (ret a).
Proof. by intros st hl. Qed.

Lemma GfmOnly_bind {A B} (m : M A) (k : A -> M B) :
  GfmOnly m -> (forall a, GfmOnly (k a)) -> GfmOnly (bind m k).
Proof.
  intros Hm Hk st hl. unfold bind. rewrite Hm.
  destruct (m st) as [[a|e] st1]; simpl; [|done]. rewrite Hk.
  by destruct (k a st1).
Qed.

Lemma GfmOnly_mapM {A B} (f : A -> M B) l :
  Forall (fun x => GfmOnly (f x)) l -> GfmOnly (mapM f l).
Proof.
  induction 1 as [|x l Hx Hl IH]; simpl; [apply GfmOnly_ret|].
  apply GfmOnly_bind; [done|]. intros y.
  apply GfmOnly_bind; [done|]. intros ys. apply GfmOnly_ret.
Qed.

Lemma GfmOnly_gfm_heading t : GfmOnly (gfm_heading t).
Proof.
  unfold gfm_heading. apply GfmOnly_bind.
  - intros st hl. unfold slugger_slug, with_highlighter.
    cbn [highlighter headings occurrences].
    by destruct (slug_loop _ _ _ _).
  - intros id. apply GfmOnly_bind; [by intros st hl|]. intros _. apply GfmOnly_ret.
Qed.

Lemma GfmOnly_parser_token t : GfmOnly (parser_token t).
Proof.
  induction t as [t IH] using Token_nested_ind. rewrite parser_token_eq.
  destruct (String.eqb (type t) "code"); [apply GfmOnly_ret|].
  destruct (String.eqb (type t) "heading"); [apply GfmOnly_gfm_heading|].
  apply GfmOnly_bind; [by apply GfmOnly_mapM|]. intros bodies. apply GfmOnly_ret.
Qed.

Lemma GfmOnly_parser l : GfmOnly (parser l).
Proof.
  unfold parser. apply GfmOnly_bind.
  - apply GfmOnly_mapM, Forall_forall. intros t _. apply GfmOnly_parser_token.
  - intros outs. apply GfmOnly_ret.
Qed.

Lemma effective_with_highlighter st hl :
  effective (with_highlighter st hl) = effective (with_highlighter initial hl).
Proof. reflexivity. Qed.

Lemma marked_parse_spec src st :
  exists hl,
    effective (with_highlighter initial hl) = effective st
    /\ marked_parse src st
       = match mapR (walk_result (effective st)) (lexer src) with
         | Ok toks =>
             (fst (parser toks initial),
              with_highlighter (snd (parser toks initial)) hl)
         | Err e => (Err (e +:+ report_suffix), with_highlighter initial hl)
         end.
Proof.
  unfold marked_parse, rethrow, bind, resetHeadings.
  destruct (walkTokens_spec (lexer src) (mkState (highlighter st) [] ∅))
    as (st1 & -> & Heff & Hhs & Hocc).
  change (effective (mkState (highlighter st) [] ∅)) with (effective st) in *.
  exists (highlighter st1). split; [by rewrite <- Heff|].
  assert (st1 = with_highlighter initial (highlighter st1)) as Hst1.
  { destruct st1; simpl in *. by subst. }
  destruct (mapR _ (lexer src)) as [toks|e]; [|by rewrite <- Hst1].
  rewrite Hst1 at 1. rewrite GfmOnly_parser.
  destruct (parser_spec toks initial) as (out & stp & new & -> & _). done.
Qed.

(** [parseMarkdown] returns what [parse_result] says for the highlighter
    in effect, and leaves that highlighter in effect. *)
Lemma parseMarkdown_spec doc st :
  exists st',
    parseMarkdown doc st = (parse_result (effective st) doc, st')
    /\ effective st' = effective st.
Proof.
  unfold parseMarkdown, parse_result.
  destruct (parseFrontmatter doc) as [fm md]. unfold bind.
  destruct (marked_parse_spec md st) as (hl & Heff & ->).
  destruct (mapR _ (lexer md)) as [toks|e].
  - destruct (parser_spec toks initial) as (out & stp & new & -> & _). simpl.
    eexists. split; [reflexivity|]. by rewrite effective_with_highlighter.
  - eexists. split; [reflexivity|]. done.
Qed.

Lemma forallb_code_tokens (p : Token -> bool) l :
  forallb (fun t => if String.eqb (type t) "code" then p t else true) l
  = forallb p (filter (fun t => String.eqb (type t) "code" = true) l).
Proof.
  induction l as [|t l IH]; simpl; [done|]. rewrite filter_cons.
  destruct (String.eqb (type t) "code") eqn:Ht.
  - rewrite decide_True by done. simpl. by rewrite IH.
  - rewrite decide_False by done. done.
Qed.

(** The parse completes exactly when the [highlight] call of every code
    token of the document succeeds. *)
Lemma parseMarkdown_ok doc st :
  is_ok (fst (parseMarkdown doc st))
  = forallb (fun t => is_ok (highlight_result (effective st) (text t) (Some (tag t))))
            (code_tokens doc).
Proof.
  destruct (parseMarkdown_spec doc st) as (st' & -> & _). simpl.
  unfold code_tokens, parse_result.
  destruct (parseFrontmatter doc) as [fm md]. simpl.
  rewrite <- forallb_code_tokens.
  rewrite <- (forallb_ext_in (fun x => is_ok (hook_result (effective st) x)))
    by (intros x _; apply hook_result_ok).
  rewrite <- walk_all_ok.
  destruct (mapR _ (lexer md)) as [toks|e]; [|done].
  by destruct (parser_spec toks initial) as (out & stp & new & -> & _).
Qed.





Lemma resolve_lang_unknown lang :
  Js.includes validLangs lang = false -> resolve_lang lang = "typescript".
Proof. unfold resolve_lang. by intros ->. Qed.


(** C5: the identifiers of the headings that [parseMarkdown] returns are
    pairwise distinct, and there is one heading for each heading token of
    the document, in document order, with that token's text and level, so
    that headings with the same text get distinct identifiers. *)
Theorem heading_ids_distinct (doc : string) (st st' : State) (r : ParsedMarkdown) :
  parseMarkdown doc st = (Ok r, st') ->
  NoDup (map id (p_headings r))
  /\ exists toks,
      mapR (walk_result (effective st)) (lexer (content (parseFrontmatter doc))) = Ok toks
      /\ Forall2 (fun h t => h_text h = heading_text t /\ level h = depth t)
                 (p_headings r) (flat_map rendered_headings toks).
Proof.
  destruct (parseMarkdown_spec doc st) as (st1 & -> & _). intros [= Hr _].
  unfold parse_result in Hr. destruct (parseFrontmatter doc) as [fm md]. simpl.
  destruct (mapR _ (lexer md)) as [toks|e]; [|done].
  destruct (parser_spec toks initial)
    as (out & stp & new & Hp & _ & Hnew & _ & Hnd & _ & Hall).
  rewrite Hp in Hr. injection Hr as <-. simpl in *. subst new. split.
  - rewrite map_map. by simpl.
  - exists toks. split; [done|]. apply Forall2_fmap_l.
    eapply Forall2_impl; [exact Hall|]. by intros h t ->.
Qed.


End PipelineTheory.

(** ** The modules run on sample documents *)





Lemma parseFrontmatter_degrades_witness :
  @parseFrontmatter (Sample.packages true) Sample.bad_header
  = {| data := empty_object; content := "body" |}.
Proof.
  apply (proj2 (proj2 (@parseFrontmatter_degrades (Sample.packages true) Sample.bad_header))
           "[" "body");
    reflexivity.
Defined.

(** Counterexample to C3: for a header whose block does not parse, the
    metadata is empty and the body is the text after the header, not the
    whole input. *)
Lemma malformed_header_counterexample :
  Regex.frontmatterRegex Sample.bad_header = Some ("[", "body")
  /\ is_err (@parseYaml (Sample.packages true) "[") = true
  /\ @parseFrontmatter (Sample.packages true) Sample.bad_header
     = {| data := empty_object; content := "body" |}
  /\ ~ @degrades_to_whole_input (Sample.packages true) Sample.bad_header.
Proof.
  split; [reflexivity|]. split; [reflexivity|]. split; [reflexivity|].
  unfold degrades_to_whole_input. intros Hwhole.
  assert (@parseFrontmatter (Sample.packages true) Sample.bad_header
          = {| data := empty_object; content := Sample.bad_header |}) as Heq
    by (apply Hwhole; reflexivity).
  vm_compute in Heq. discriminate Heq.
Qed.

Lemma parseMarkdown_well_formed_header_witness :
  @parseFrontmatter (Sample.packages true)
    ("---" +:+ Regex.nl +:+ "title: " +:+ "X" +:+ Regex.nl +:+ "---" +:+ Regex.nl +:+ "body")
  = {| data := VObject [("title", VString "X")]; content := "body" |}.
Proof.
  apply (proj1 (@parseMarkdown_well_formed_header (Sample.packages true) "X" "body"
                  (VObject [("title", VString "X")]) eq_refl eq_refl eq_refl)).
Defined.

Lemma heading_ids_distinct_witness : NoDup ["example"; "example-1"].
Proof.
  apply (proj1 (@heading_ids_distinct (Sample.packages true) Sample.twice
                  (@initial (Sample.packages true))
                  (snd (@parseMarkdown (Sample.packages true) Sample.twice
                          (@initial (Sample.packages true))))
                  {| html := "<h2 id=" +:+ quote +:+ "example" +:+ quote +:+ ">Example</h2>"
                               +:+ Regex.nl
                               +:+ "<h2 id=" +:+ quote +:+ "example-1" +:+ quote
                               +:+ ">Example</h2>" +:+ Regex.nl;
                     p_headings := [ mkHeading "example" "Example" 2;
                                     mkHeading "example-1" "Example" 2 ];
                     frontmatter := empty_object |}
                  ltac:(vm_compute; reflexivity))).
Defined.

Lemma parseFrontmatter_unterminated_header_witness :
  @parseFrontmatter (Sample.packages true)
    ("---" +:+ Regex.nl +:+ "title: X" +:+ Regex.nl +:+ "---")
  = {| data := empty_object;
       content := "---" +:+ Regex.nl +:+ "title: X" +:+ Regex.nl +:+ "---" |}.
Proof.
  apply (proj1 (@parseFrontmatter_unterminated_header (Sample.packages true)
                  "title: X" false false eq_refl)).
Defined.

(** ** More on the table of contents: addresses, neighbours, the sidebar *)

Module TocMore.
Import Toc SidebarNav.

Lemma href_of_inj s s' : href_of s = href_of s' -> s = s'.
Proof.
  unfold href_of. destruct s as [|c s], s' as [|c' s']; simpl.
  - done.
  - intros Heq. discriminate Heq.
  - intros Heq. discriminate Heq.
  - intros Heq. by injection Heq as -> ->.
Qed.

(** X1: the address scheme is injective: two slugs with the same address
    are the same slug, and the address of a slug that is not empty is never
    the root address [/docs]. *)
Theorem href_of_injective :
  (forall s s', href_of s = href_of s' -> s = s')
  /\ (forall s, href_of s = "/docs" -> s = "").
Proof.
  split; [exact href_of_inj|].
  intros s Hs. apply href_of_inj. by rewrite Hs.
Qed.

Lemma href_of_injective_witness : "api/kage" = "api/kage".
Proof. apply (proj1 href_of_injective "api/kage" "api/kage"). reflexivity. Defined.

(** X2: following [next] and then [prev] comes back: in a flattened array
    with pairwise distinct slugs, if [e'] comes right after [e], then [next]
    of [e]'s slug is [e'] and [prev] of [e']'s slug is [e]. *)
Theorem getNavigation_next_prev (flat : list FlatEntry) (i : nat) e e' :
  NoDup (map (fun e => slug (entry e)) flat) ->
  flat !! i = Some e -> flat !! S i = Some e' ->
  next (getNavigation_in flat (slug (entry e))) = Some (nav_of e')
  /\ prev (getNavigation_in flat (slug (entry e'))) = Some (nav_of e).
Proof.
  intros Hnd He He'. split.
  - rewrite (TocTheory.getNavigation_in_found flat i e Hnd He). simpl. by rewrite He'.
  - rewrite (TocTheory.getNavigation_in_found flat (S i) e' Hnd He'). simpl.
    by rewrite He.
Qed.

Lemma getNavigation_next_prev_witness :
  next (getNavigation "installation")
  = Some (mkNavEntry "Quick Start" (Some "Getting Started") "/docs/quickstart")
  /\ prev (getNavigation "quickstart")
     = Some (mkNavEntry "Installation" (Some "Getting Started") "/docs/installation").
Proof.
  apply (getNavigation_next_prev flatToc 1%nat
           (mkFlatEntry (mkTocEntry "Installation" "installation" "installation.md")
              "Getting Started" "/docs/installation")
           (mkFlatEntry (mkTocEntry "Quick Start" "quickstart" "quickstart.md")
              "Getting Started" "/docs/quickstart")).
  - apply (bool_decide_unpack _). vm_compute. reflexivity.
  - reflexivity.
  - reflexivity.
Defined.

(** X3: in a flattened array of at least two entries with pairwise distinct
    slugs, the result of [getNavigation] has neither [prev] nor [next]
    exactly when no entry has the slug: an entry that is found always has a
    neighbour. *)
Theorem getNavigation_empty_iff (flat : list FlatEntry) (s : string) :
  NoDup (map (fun e => slug (entry e)) flat) ->
  (2 <= length flat)%nat ->
  getNavigation_in flat s = {| prev := None; next := None |}
  <-> existsb (has_slug s) flat = false.
Proof.
  intros Hnd Hlen. split.
  - intros Hempty. destruct (existsb (has_slug s) flat) eqn:Hex; [|done]. exfalso.
    apply existsb_exists in Hex as (e & Hin & Hs).
    apply TocTheory.has_slug_true in Hs. subst s.
    apply list_elem_of_In, list_elem_of_lookup in Hin as [i Hi].
    rewrite (TocTheory.getNavigation_in_found flat i e Hnd Hi) in Hempty.
    injection Hempty as Hp Hn. destruct i as [|i].
    + destruct (lookup_lt_is_Some_2 flat 1%nat) as [e1 He1]; [lia|].
      by rewrite He1 in Hn.
    + simpl in Hp. destruct (lookup_lt_is_Some_2 flat i) as [e0 He0].
      { apply lookup_lt_Some in Hi. lia. }
      by rewrite He0 in Hp.
  - intros Hex. apply TocTheory.getNavigation_in_missing.
    intros e He Hs. apply not_true_iff_false in Hex. apply Hex.
    apply existsb_exists. exists e. split; [by apply list_elem_of_In|].
    by apply TocTheory.has_slug_true.
Qed.

Lemma getNavigation_empty_iff_witness :
  getNavigation "missing" = {| prev := None; next := None |}
  <-> existsb (has_slug "missing") flatToc = false.
Proof.
  apply (getNavigation_empty_iff flatToc "missing").
  - apply (bool_decide_unpack _). vm_compute. reflexivity.
  - vm_compute. lia.
Defined.

Lemma find_some_first {A} (p : A -> bool) (l : list A) x :
  find p l = Some x -> x ∈ l /\ p x = true.
Proof.
  induction l as [|a l IH]; simpl; [done|].
  destruct (p a) eqn:Ha.
  - intros [= <-]. split; [apply list_elem_of_here | done].
  - intros Hf. destruct (IH Hf) as [Hin Hp]. split; [by apply list_elem_of_further | done].
Qed.

Lemma getEntryBySlug_found (s : string) (e : FlatEntry) :
  getEntryBySlug s = Some e -> e ∈ flatToc /\ slug (entry e) = s.
Proof.
  unfold getEntryBySlug. intros Hf. apply find_some_first in Hf as [Hin Hs].
  split; [done|]. by apply TocTheory.has_slug_true.
Qed.

Lemma getEntryBySlug_address (s : string) (e : FlatEntry) :
  getEntryBySlug s = Some e -> href e = href_of s.
Proof.
  intros [Hin <-]%getEntryBySlug_found.
  unfold flatToc, flattenToc in Hin. rewrite TocTheory.flattenToc_of_concat in Hin.
  apply list_elem_of_In, in_concat in Hin as (r & Hr & He).
  apply in_map_iff in Hr as (c & <- & _).
  by apply in_map_iff in He as (item & <- & _).
Qed.

(** X4: [getEntryBySlug] returns an entry exactly when the flattened
    sequence holds it under that slug; the entry returned has the slug asked
    for and the address of that slug. *)
Theorem getEntryBySlug_iff (s : string) (e : FlatEntry) :
  (getEntryBySlug s = Some e <-> (e ∈ flatToc /\ slug (entry e) = s))
  /\ (getEntryBySlug s = Some e -> href e = href_of s).
Proof.
  split; [split|].
  - apply getEntryBySlug_found.
  - intros [Hin <-]. unfold getEntryBySlug. apply TocTheory.find_slug; [|done].
    exact TocTheory.flatToc_slugs_NoDup.
  - apply getEntryBySlug_address.
Qed.

Lemma getEntryBySlug_iff_witness :
  href (mkFlatEntry (mkTocEntry "Types" "api/types" "api/types.md")
          "API Reference" "/docs/api/types")
  = href_of "api/types".
Proof.
  apply (proj2 (getEntryBySlug_iff "api/types"
                  (mkFlatEntry (mkTocEntry "Types" "api/types" "api/types.md")
                     "API Reference" "/docs/api/types"))).
  reflexivity.
Defined.

Lemma sidebar_lookup (cats : list TocCategory) (k : nat) sec :
  getSidebarNavigation_of cats !! k = Some sec ->
  exists c, cats !! k = Some c
    /\ s_title sec = cat_title c
    /\ s_items sec
       = Some (map (fun item => mkSidebarItem (title item) (Some (href_of (slug item))) None)
                   (items c)).
Proof.
  unfold getSidebarNavigation_of. rewrite list_lookup_fmap.
  destruct (cats !! k) as [c|]; [|done]. intros [= <-]. by exists c.
Qed.

Lemma sidebar_links_pairs (cats : list TocCategory) :
  map (fun l => (s_title l, s_href l)) (sidebar_links (getSidebarNavigation_of cats))
  = map (fun e => (title (entry e), Some (href e))) (flattenToc_of cats).
Proof.
  rewrite TocTheory.flattenToc_of_concat.
  induction cats as [|c cats IH]; [done|].
  change (sidebar_links (getSidebarNavigation_of (c :: cats)))
    with (map (fun item => mkSidebarItem (title item) (Some (href_of (slug item))) None)
              (items c)
            ++ sidebar_links (getSidebarNavigation_of cats)).
  change (concat (map row (c :: cats))) with (row c ++ concat (map row cats)).
  rewrite !map_app, IH. f_equal. unfold row. by rewrite !map_map.
Qed.

(** X5: the sidebar and the flattened sequence agree: the sections are the
    categories in order, and the links of the sidebar, read section by
    section, carry the titles and addresses of the flattened entries in the
    same order, for every catalog. *)
Theorem sidebar_matches_flattenToc (cats : list TocCategory) :
  map s_title (getSidebarNavigation_of cats) = map cat_title cats
  /\ map (fun l => (s_title l, s_href l)) (sidebar_links (getSidebarNavigation_of cats))
     = map (fun e => (title (entry e), Some (href e))) (flattenToc_of cats).
Proof.
  split.
  - unfold getSidebarNavigation_of. by rewrite map_map.
  - apply sidebar_links_pairs.
Qed.

Lemma position_inj (cats : list TocCategory) j i k i' c e c' e' :
  cats !! j = Some c -> items c !! i = Some e ->
  cats !! k = Some c' -> items c' !! i' = Some e' ->
  position cats j i = position cats k i' -> j = k.
Proof.
  intros Hj Hi Hk Hi' Hpos.
  destruct (lt_eq_lt_dec j k) as [[Hlt|Heq]|Hgt]; [|done|].
  - pose proof (TocTheory.position_mono cats j i k i' c e Hj Hi (or_introl Hlt)). lia.
  - pose proof (TocTheory.position_mono cats k i' j i c' e' Hk Hi' (or_introl Hgt)). lia.
Qed.

(** X6: for a catalog with pairwise distinct slugs, the sidebar section that
    [isActiveSection] marks for the address of an entry is the section of
    the entry's category and no other; and for a path that is the address of
    no entry, no section is marked. *)
Theorem isActiveSection_own_category (cats : list TocCategory) :
  NoDup (map (fun e => slug (entry e)) (flattenToc_of cats)) ->
  (forall j i c e k sec,
      cats !! j = Some c -> items c !! i = Some e ->
      getSidebarNavigation_of cats !! k = Some sec ->
      isActiveSection sec (href_of (slug e)) = true <-> k = j)
  /\ (forall path k sec,
      existsb (fun e => String.eqb (href e) path) (flattenToc_of cats) = false ->
      getSidebarNavigation_of cats !! k = Some sec ->
      isActiveSection sec path = false).
Proof.
  intros Hnd. split.
  - intros j i c e k sec Hj Hi Hsec.
    destruct (sidebar_lookup cats k sec Hsec) as (c' & Hk & _ & Hitems).
    unfold isActiveSection. rewrite Hitems. split.
    + intros Hex. apply existsb_exists in Hex as (l & Hl & Hp).
      apply in_map_iff in Hl as (item & <- & Hitem). simpl in Hp.
      apply String.eqb_eq, href_of_inj in Hp.
      apply list_elem_of_In, list_elem_of_lookup in Hitem as [i' Hi'].
      symmetry. eapply (position_inj cats j i k i'); try done.
      eapply NoDup_lookup; [exact Hnd | |].
      * rewrite list_lookup_fmap, (TocTheory.position_lookup cats j i c e Hj Hi). done.
      * rewrite list_lookup_fmap, (TocTheory.position_lookup cats k i' c' item Hk Hi').
        simpl. by rewrite Hp.
    + intros ->. rewrite Hj in Hk. injection Hk as <-.
      apply existsb_exists. exists (mkSidebarItem (title e) (Some (href_of (slug e))) None).
      split; [|simpl; apply String.eqb_refl].
      apply in_map_iff. exists e. split; [done|].
      by eapply list_elem_of_In, list_elem_of_lookup_2.
  - intros path k sec Hnone Hsec.
    destruct (sidebar_lookup cats k sec Hsec) as (c' & Hk & _ & Hitems).
    unfold isActiveSection. rewrite Hitems.
    destruct (existsb _ (map _ (items c'))) eqn:Hex; [|done]. exfalso.
    apply existsb_exists in Hex as (l & Hl & Hp).
    apply in_map_iff in Hl as (item & <- & Hitem). simpl in Hp.
    apply list_elem_of_In, list_elem_of_lookup in Hitem as [i' Hi'].
    apply not_true_iff_false in Hnone. apply Hnone.
    apply existsb_exists. exists (flat_of c' item). split; [|done].
    eapply list_elem_of_In, list_elem_of_lookup_2.
    by apply (TocTheory.position_lookup cats k i' c' item).
Qed.

Lemma isActiveSection_own_category_witness :
  isActiveSection
    (mkSidebarItem "Core Concepts" (Some "#")
       (Some [ mkSidebarItem "Routing" (Some "/docs/concepts/routing") None;
               mkSidebarItem "Context" (Some "/docs/concepts/context") None;
               mkSidebarItem "Middleware" (Some "/docs/concepts/middleware") None;
               mkSidebarItem "Schema Validation" (Some "/docs/concepts/schema") None ]))
    (href_of "concepts/context") = true
  <-> 1%nat = 1%nat.
Proof.
  apply (proj1 (isActiveSection_own_category toc
                  ltac:(apply (bool_decide_unpack _); vm_compute; reflexivity))
           1%nat 1%nat
           (mkTocCategory "Core Concepts"
              [ mkTocEntry "Routing" "concepts/routing" "concepts/routing.md";
                mkTocEntry "Context" "concepts/context" "concepts/context.md";
                mkTocEntry "Middleware" "concepts/middleware" "concepts/middleware.md";
                mkTocEntry "Schema Validation" "concepts/schema" "concepts/schema.md" ])
           (mkTocEntry "Context" "concepts/context" "concepts/context.md")
           1%nat);
    reflexivity.
Defined.

Lemma index_elem_of {A} (l : list A) (i : Z) x : Js.index l i = Some x -> x ∈ l.
Proof.
  unfold Js.index. destruct (i <? 0); [done|]. apply list_elem_of_lookup_2.
Qed.

Lemma getNavigation_in_elem (flat : list FlatEntry) (s : string) (n : NavEntry) :
  prev (getNavigation_in flat s) = Some n \/ next (getNavigation_in flat s) = Some n ->
  exists e, e ∈ flat /\ nav_of e = n.
Proof.
  unfold getNavigation_in. destruct (_ =? -1); [by intros [|]|]. simpl.
  intros [Hn|Hn].
  - destruct (Js.index flat (_ - 1)) as [e|] eqn:He; [|done].
    injection Hn as <-. exists e. split; [by eapply index_elem_of | done].
  - destruct (Js.index flat (_ + 1)) as [e|] eqn:He; [|done].
    injection Hn as <-. exists e. split; [by eapply index_elem_of | done].
Qed.

(** X19: no link dangles: a [prev] or [next] that [getNavigation] returns,
    and every link of the sidebar, carries the title and the address of an
    entry of the flattened sequence, which [getEntryBySlug] finds under its
    slug. *)
Theorem links_resolve :
  (forall s n,
      prev (getNavigation s) = Some n \/ next (getNavigation s) = Some n ->
      exists e, getEntryBySlug (slug (entry e)) = Some e
                /\ nav_title n = title (entry e) /\ nav_href n = href e)
  /\ (forall l, l ∈ sidebar_links navigation ->
      exists e, getEntryBySlug (slug (entry e)) = Some e
                /\ s_title l = title (entry e) /\ s_href l = Some (href e)).
Proof.
  split.
  - intros s n Hn. destruct (getNavigation_in_elem flatToc s n Hn) as (e & He & <-).
    exists e. split; [|done]. unfold getEntryBySlug.
    apply TocTheory.find_slug; [exact TocTheory.flatToc_slugs_NoDup | done].
  - intros l Hl.
    assert ((s_title l, s_href l)
              ∈ map (fun e => (title (entry e), Some (href e))) flatToc) as Hin.
    { unfold flatToc, flattenToc. rewrite <- sidebar_links_pairs.
      apply list_elem_of_In.
      apply (in_map (fun l => (s_title l, s_href l))). by apply list_elem_of_In. }
    apply list_elem_of_In, in_map_iff in Hin as (e & [= Ht Hh] & He).
    exists e. split; [|done]. unfold getEntryBySlug.
    apply TocTheory.find_slug; [exact TocTheory.flatToc_slugs_NoDup|].
    by apply list_elem_of_In.
Qed.

Lemma links_resolve_witness :
  exists e, getEntryBySlug (slug (entry e)) = Some e
            /\ "Kage Class" = title (entry e) /\ "/docs/api/kage" = href e.
Proof.
  apply (proj1 links_resolve "advanced/workers"
           (mkNavEntry "Kage Class" (Some "API Reference") "/docs/api/kage")).
  right. reflexivity.
Defined.

End TocMore.

(** ** More on [shiki.ts]: the languages asked for, the memoised highlighter *)

Section ShikiMore.
Context `{Packages}.

Lemma includes_elem_of (l : list string) (s : string) :
  Js.includes l s = true <-> s ∈ l.
Proof.
  unfold Js.includes. rewrite existsb_exists. split.
  - intros (x & Hin & Heq). apply String.eqb_eq in Heq. subst x.
    by apply list_elem_of_In.
  - intros Hin. exists s. split; [by apply list_elem_of_In | apply String.eqb_refl].
Qed.

(** X7: the language [highlight] hands to [codeToHtml] is always one of the
    six languages the highlighter was created with; a tag that is one of
    them is handed over as it is; and resolving twice changes nothing. *)
Theorem resolve_lang_loaded (lang : string) :
  resolve_lang lang ∈ langs
  /\ (lang ∈ langs -> resolve_lang lang = lang)
  /\ resolve_lang (resolve_lang lang) = resolve_lang lang.
Proof.
  assert (forall l, l ∈ langs -> resolve_lang l = l) as Hfix.
  { intros l Hl. unfold langs in Hl.
    repeat (apply elem_of_cons in Hl as [->|Hl]; [reflexivity|]).
    by apply elem_of_nil in Hl. }
  assert (resolve_lang lang ∈ langs) as Hin.
  { destruct (Js.includes validLangs lang) eqn:Hv.
    - apply includes_elem_of in Hv. unfold validLangs in Hv.
      repeat (apply elem_of_cons in Hv as [->|Hv];
              [apply list_elem_of_In; vm_compute; tauto|]).
      by apply elem_of_nil in Hv.
    - rewrite resolve_lang_unknown by done. apply list_elem_of_In. vm_compute. tauto. }
  split; [done|]. split; [exact (Hfix lang)|]. by apply Hfix.
Qed.

Lemma resolve_lang_loaded_witness : resolve_lang "tsx" = "tsx".
Proof.
  apply (proj1 (proj2 (resolve_lang_loaded "tsx"))).
  apply list_elem_of_In. vm_compute. tauto.
Defined.

Lemma highlighter_after_compose st st1 a b :
  highlighter st1 = highlighter_after st a ->
  highlighter_after st1 b = highlighter_after st (a || b).
Proof.
  unfold highlighter_after. intros ->.
  destruct (highlighter st) as [hl|]; [done|].
  destruct a; simpl; [|done].
  destruct (createHighlighter [kageTheme] langs); [done|]. by destruct b.
Qed.

Lemma getHighlighter_memo st :
  highlighter (snd (getHighlighter st)) = highlighter_after st true.
Proof.
  unfold getHighlighter, highlighter_after, bind, get, lift, put, ret. simpl.
  destruct (highlighter st) as [hl|] eqn:Hhl; simpl; [done|].
  by destruct (createHighlighter [kageTheme] langs).
Qed.

Lemma walkTokens_hook_memo t st :
  highlighter (snd (walkTokens_hook t st)) = highlighter_after st (is_code t).
Proof.
  unfold walkTokens_hook, is_code.
  destruct (String.eqb (type t) "code").
  - unfold bind, highlight.
    pose proof (getHighlighter_memo st) as Hm. unfold bind.
    destruct (getHighlighter st) as [[hl|e] st1]; simpl in *; [|done].
    unfold lift. by destruct (codeToHtml _ _ _ _).
  - unfold highlighter_after. simpl. by destruct (highlighter st).
Qed.

(** A token without code among its descendants is left as it is. *)
Lemma set_tokens_id t : set_tokens t (tokens t) = t.
Proof. by destruct t. Qed.

Lemma mapR_id {A} (f : A -> Result A) l :
  Forall (fun x => f x = Ok x) l -> mapR f l = Ok l.
Proof.
  induction 1 as [|x l Hx Hl IH]; simpl; [done|]. by rewrite Hx, IH.
Qed.

Lemma existsb_flat_map {A B} (p : B -> bool) (f : A -> list B) l :
  existsb p (flat_map f l) = existsb (fun x => existsb p (f x)) l.
Proof.
  induction l as [|x l IH]; simpl; [done|]. by rewrite existsb_app, IH.
Qed.

Lemma walk_result_no_code eh t :
  existsb is_code (subtokens t) = false -> walk_result eh t = Ok t.
Proof.
  induction t as [t IH] using Token_nested_ind.
  rewrite subtokens_eq, walk_result_eq. simpl.
  intros [Ht Hch]%orb_false_elim. unfold hook_result. unfold is_code in Ht. rewrite Ht.
  rewrite mapR_id; [by rewrite set_tokens_id|].
  rewrite existsb_flat_map in Hch.
  rewrite Forall_forall in IH. apply Forall_forall. intros x Hx. apply IH; [done|].
  destruct (existsb is_code (subtokens x)) eqn:Hx'; [|done].
  assert (existsb (fun x => existsb is_code (subtokens x)) (tokens t) = true); [|congruence].
  apply existsb_exists. exists x. split; [by apply list_elem_of_In | done].
Qed.

Lemma walk_list_no_code eh l :
  existsb is_code (all_tokens l) = false -> mapR (walk_result eh) l = Ok l.
Proof.
  unfold all_tokens. rewrite existsb_flat_map. intros Hl.
  apply mapR_id, Forall_forall. intros x Hx. apply walk_result_no_code.
  destruct (existsb is_code (subtokens x)) eqn:Hx'; [|done].
  assert (existsb (fun x => existsb is_code (subtokens x)) l = true); [|congruence].
  apply existsb_exists. exists x. split; [by apply list_elem_of_In | done].
Qed.

Lemma walkTokens_list_memo l :
  Forall (fun t => forall st,
            highlighter (snd (walkTokens_token t st))
            = highlighter_after st (existsb is_code (subtokens t))) l ->
  forall st,
    highlighter (snd (mapM walkTokens_token l st))
    = highlighter_after st (existsb is_code (all_tokens l)).
Proof.
  induction 1 as [|t l Ht Hl IH]; intros st.
  - simpl. unfold highlighter_after. by destruct (highlighter st).
  - change (all_tokens (t :: l)) with (subtokens t ++ all_tokens l).
    rewrite existsb_app. simpl. unfold bind.
    pose proof (Ht st) as Hm.
    destruct (walkTokens_token_spec t st) as (st1 & Hw & _).
    rewrite Hw in *. simpl in Hm.
    destruct (walk_result (effective st) t) as [t'|e] eqn:Hr.
    + pose proof (IH st1) as Hm2.
      destruct (mapM walkTokens_token l st1) as [[ys|e] st2]; simpl in *;
        rewrite Hm2; by apply highlighter_after_compose.
    + simpl. destruct (existsb is_code (subtokens t)) eqn:Hc; [done|].
      by rewrite walk_result_no_code in Hr.
Qed.

Lemma walkTokens_token_memo t :
  forall st,
    highlighter (snd (walkTokens_token t st))
    = highlighter_after st (existsb is_code (subtokens t)).
Proof.
  induction t as [t IH] using Token_nested_ind. intros st.
  rewrite walkTokens_token_eq, subtokens_eq. simpl. unfold bind.
  pose proof (walkTokens_hook_memo t st) as Hm.
  destruct (walkTokens_hook t st) as [[t'|e] st1] eqn:Hh; simpl in Hm.
  - pose proof (walkTokens_list_memo (tokens t) IH st1) as Hm2.
    destruct (mapM walkTokens_token (tokens t) st1) as [[ch|e] st2]; simpl in *;
      rewrite Hm2; by apply highlighter_after_compose.
  - simpl. rewrite Hm. destruct (is_code t) eqn:Hc; [done|].
    unfold walkTokens_hook, is_code in *. rewrite Hc in Hh. discriminate Hh.
Qed.

Lemma parser_highlighter l st : highlighter (snd (parser l st)) = highlighter st.
Proof. destruct (parser_spec l st) as (out & st' & new & -> & Hh & _). done. Qed.

Lemma marked_parse_memo src st :
  highlighter (snd (marked_parse src st))
  = highlighter_after st (existsb is_code (all_tokens (lexer src))).
Proof.
  unfold marked_parse, rethrow, bind, resetHeadings, walkTokens.
  pose proof (walkTokens_list_memo (lexer src)) as Hm.
  specialize (Hm ltac:(apply Forall_forall; intros t _; apply walkTokens_token_memo)
                 (mkState (highlighter st) [] ∅)).
  change (highlighter_after (mkState (highlighter st) [] ∅)) with (highlighter_after st) in Hm.
  destruct (mapM walkTokens_token (lexer src) _) as [[toks|e] st1]; simpl in *; [|done].
  pose proof (parser_highlighter toks st1) as Hp.
  destruct (parser toks st1) as [[out|e] st2]; simpl in *; congruence.
Qed.

(** X8: the state a parse leaves [highlighter] in: a highlighter already
    memoised is kept; a document without code tokens leaves the variable
    as it was, so the engine is not created for it; for a document with a
    code token the highlighter created is memoised, and a failed creation
    leaves the variable empty, so that the next parse tries again. *)
Theorem parseMarkdown_memoises (doc : string) (st : State) :
  highlighter (snd (parseMarkdown doc st))
  = highlighter_after st
      (existsb is_code (all_tokens (lexer (content (parseFrontmatter doc))))).
Proof.
  unfold parseMarkdown. destruct (parseFrontmatter doc) as [fm md]. simpl.
  unfold bind, getHeadingList, get, ret.
  pose proof (marked_parse_memo md st) as Hm.
  by destruct (marked_parse md st) as [[h|e] st1].
Qed.

Lemma code_tokens_nil_no_code doc :
  code_tokens doc = [] ->
  existsb is_code (all_tokens (lexer (content (parseFrontmatter doc)))) = false.
Proof.
  unfold code_tokens. intros Hnil.
  destruct (existsb _ _) eqn:Hex; [|done]. exfalso.
  apply existsb_exists in Hex as (t & Hin & Ht).
  assert (t ∈ @nil Token) as Hbad; [|by apply elem_of_nil in Hbad].
  rewrite <- Hnil. apply list_elem_of_filter. split; [done | by apply list_elem_of_In].
Qed.

(** X9: a document without code tokens always parses, leaves [highlighter]
    as it was, and gives the same result from every module state, whether
    or not a highlighter can be created. *)
Theorem parseMarkdown_without_code (doc : string) (st : State) :
  code_tokens doc = [] ->
  is_ok (fst (parseMarkdown doc st)) = true
  /\ highlighter (snd (parseMarkdown doc st)) = highlighter st
  /\ forall st2, fst (parseMarkdown doc st2) = fst (parseMarkdown doc st).
Proof.
  intros Hnil. split; [|split].
  - rewrite parseMarkdown_ok, Hnil. done.
  - rewrite parseMarkdown_memoises, code_tokens_nil_no_code by done.
    unfold highlighter_after. by destruct (highlighter st).
  - intros st2. destruct (parseMarkdown_spec doc st2) as (st2' & -> & _).
    destruct (parseMarkdown_spec doc st) as (st' & -> & _). simpl.
    unfold parse_result. destruct (parseFrontmatter doc) as [fm md] eqn:Hfm.
    assert (existsb is_code (all_tokens (lexer md)) = false) as Hno.
    { pose proof (code_tokens_nil_no_code doc Hnil) as Hn. by rewrite Hfm in Hn. }
    by rewrite !walk_list_no_code.
Qed.

End ShikiMore.

Lemma parseMarkdown_without_code_witness :
  is_ok (fst (@parseMarkdown (Sample.packages false) Sample.twice
                (@initial (Sample.packages false)))) = true.
Proof.
  apply (proj1 (@parseMarkdown_without_code (Sample.packages false) Sample.twice
                  (@initial (Sample.packages false)) eq_refl)).
Defined.

(** ** More on the metadata header *)

Module RegexMore.
Import Regex.

(** After a line feed: if [---] and a line break follow, the line that
    starts here is a delimiter line; what comes after the text starts with
    a line break. *)
Lemma delimiter_before_break (s rest : string) (b : bool) r r' :
  literal "---" (s +:+ opt_cr b +:+ nl +:+ rest) = Some r -> newline r = Some r' ->
  exists l, head (lines s) = Some l /\ is_delimiter l = true.
Proof.
  unfold nl.
  destruct s as [|c1 s]; [by destruct b|].
  destruct s as [|c2 s]; simpl.
  { destruct (Ascii.eqb "-" c1); [|done]. by destruct b. }
  destruct s as [|c3 s]; simpl.
  { destruct (Ascii.eqb "-" c1); [|done]. destruct (Ascii.eqb "-" c2); [|done].
    by destruct b. }
  destruct (Ascii.eqb_spec "-" c1) as [<-|]; [|done].
  destruct (Ascii.eqb_spec "-" c2) as [<-|]; [|done].
  destruct (Ascii.eqb_spec "-" c3) as [<-|]; [|done].
  intros [= <-]. destruct s as [|d s].
  { intros _. by exists "---". }
  simpl. destruct (Ascii.eqb_spec d CR) as [->|Hcr].
  - destruct s as [|e s].
    + intros _. by exists ("---" +:+ cr).
    + simpl. destruct (Ascii.eqb_spec e LF) as [->|]; [|done].
      intros _. exists ("---" +:+ cr). split; [|done].
      simpl. by destruct (lines s).
  - destruct (Ascii.eqb_spec d LF) as [->|]; [|done].
    intros _. exists "---". split; [|done]. simpl. by destruct (lines s).
Qed.

Lemma last_is_CR_cons c d s : last_is_CR (String c (String d s)) = last_is_CR (String d s).
Proof. reflexivity. Qed.

(** Inside the block no closing delimiter is found. *)
Lemma closing_inside_None (c : ascii) (s body : string) (b1 b2 : bool) :
  (forall l, l ∈ tail (lines (String c s)) -> is_delimiter l = false) ->
  last_is_CR (String c s) = false ->
  closing (String c s +:+ terminated b1 b2 body) = None.
Proof.
  intros Hs Hlast.
  destruct (closing (String c s +:+ terminated b1 b2 body)) as [r'|] eqn:Hc; [|done].
  exfalso. unfold closing in Hc.
  destruct (newline (String c s +:+ terminated b1 b2 body)) as [r1|] eqn:Hn; [|done].
  destruct (literal "---" r1) as [r|] eqn:Hl; [|done].
  unfold terminated in *.
  apply RegexTheory.newline_inv in Hn as [Hn|Hn].
  - simpl in Hn. injection Hn as -> <-.
    destruct (delimiter_before_break s _ b1 r r' Hl Hc) as (l & Hhead & Hdel).
    rewrite (Hs l) in Hdel; [done|]. by apply RegexTheory.head_lines_after_LF.
  - simpl in Hn. injection Hn as -> Hn.
    destruct s as [|d s].
    + simpl in Hlast. by rewrite Ascii.eqb_refl in Hlast.
    + simpl in Hn. injection Hn as -> <-.
      destruct (delimiter_before_break s _ b1 r r' Hl Hc) as (l & Hhead & Hdel).
      rewrite (Hs l) in Hdel; [done|].
      apply RegexTheory.tail_lines_cons. by apply RegexTheory.head_lines_after_LF.
Qed.

Lemma lazy_group_terminated (y body : string) (b1 b2 : bool) :
  (forall l, l ∈ tail (lines y) -> is_delimiter l = false) ->
  last_is_CR y = false ->
  lazy_group (y +:+ terminated b1 b2 body) = Some (y, body).
Proof.
  induction y as [|c y IH]; intros Hs Hlast.
  - change ("" +:+ terminated b1 b2 body) with (terminated b1 b2 body).
    pose proof (RegexTheory.closing_complete b1 b2 body) as Hc.
    fold (terminated b1 b2 body) in Hc.
    destruct (terminated b1 b2 body) as [|c t]; [by vm_compute in Hc|].
    cbn [lazy_group]. by rewrite Hc.
  - change (String c y +:+ terminated b1 b2 body)
      with (String c (y +:+ terminated b1 b2 body)).
    cbn [lazy_group].
    change (String c (y +:+ terminated b1 b2 body))
      with (String c y +:+ terminated b1 b2 body).
    rewrite closing_inside_None by done.
    rewrite IH; [done | |].
    + intros l Hl. by apply Hs, RegexTheory.tail_lines_cons.
    + destruct y as [|d y]; [done|]. by rewrite last_is_CR_cons in Hlast.
Qed.

Lemma frontmatterRegex_terminated (y body : string) (b0 b1 b2 : bool) :
  no_delimiter_line (tail (lines y)) = true ->
  last_is_CR y = false ->
  frontmatterRegex ("---" +:+ opt_cr b0 +:+ nl +:+ y +:+ terminated b1 b2 body)
  = Some (y, body).
Proof.
  intros Hlines Hlast. unfold frontmatterRegex.
  assert (lazy_group (y +:+ terminated b1 b2 body) = Some (y, body)) as Hg.
  { apply lazy_group_terminated; [|done]. intros l Hl.
    unfold no_delimiter_line in Hlines. rewrite forallb_forall in Hlines.
    apply negb_true_iff, Hlines. by apply list_elem_of_In. }
  by destruct b0.
Qed.

(** X12: a metadata header is recognised exactly when the input is the line
    [---], a block, a line [---] closed by a line break, and a body, each
    delimiter with or without a carriage return: the pattern matches every
    input of that shape and no other, and what a match returns is such a
    reading of the input, with a block no longer than that of any other
    reading. *)
Theorem frontmatterRegex_recognises (input : string) :
  ((exists y md, frontmatterRegex input = Some (y, md))
   <-> exists b0 b1 b2 y md,
        input = "---" +:+ opt_cr b0 +:+ nl +:+ y +:+ terminated b1 b2 md)
  /\ (forall y md, frontmatterRegex input = Some (y, md) ->
      (exists b0 b1 b2,
          input = "---" +:+ opt_cr b0 +:+ nl +:+ y +:+ terminated b1 b2 md)
      /\ forall b0 b1 b2 y' md',
          input = "---" +:+ opt_cr b0 +:+ nl +:+ y' +:+ terminated b1 b2 md' ->
          (String.length y <= String.length y')%nat).
Proof.
  split; [split|].
  - intros (y & md & Hm).
    destruct (RegexTheory.frontmatterRegex_sound input y md Hm) as (b0 & b1 & b2 & ->).
    by exists b0, b1, b2, y, md.
  - intros (b0 & b1 & b2 & y & md & ->).
    destruct (RegexTheory.frontmatterRegex_complete b0 b1 b2 y md) as (y' & md' & Hm & _).
    by exists y', md'.
  - intros y md Hm. split.
    + destruct (RegexTheory.frontmatterRegex_sound input y md Hm) as (b0 & b1 & b2 & ->).
      by exists b0, b1, b2.
    + intros b0 b1 b2 y' md' ->.
      destruct (RegexTheory.frontmatterRegex_complete b0 b1 b2 y' md')
        as (y2 & md2 & Hm2 & Hle).
      unfold terminated in Hm. rewrite Hm2 in Hm. by injection Hm as -> ->.
Qed.

Lemma frontmatterRegex_recognises_witness :
  exists b0 b1 b2,
    "---" +:+ nl +:+ "a: 1" +:+ nl +:+ "---" +:+ nl +:+ "text"
    = "---" +:+ opt_cr b0 +:+ nl +:+ "a: 1" +:+ terminated b1 b2 "text".
Proof.
  apply (proj1 (proj2 (frontmatterRegex_recognises
                         ("---" +:+ nl +:+ "a: 1" +:+ nl +:+ "---" +:+ nl +:+ "text"))
                  "a: 1" "text" eq_refl)).
Defined.

End RegexMore.

Section FrontmatterMore.
Context `{Packages}.
Import Regex.

(** X10: a header of any number of lines is split off: for an input made of
    the line [---], a block [y], the line [---] and a body, where no line
    of [y] past its first is a delimiter line and [y] does not end with a
    carriage return, the block handed to the metadata reader is [y] and the
    body is what follows the first closing delimiter line, whatever the
    body holds; each delimiter may carry a carriage return, which is
    dropped. The metadata is what the reader returns, or the empty mapping
    when it returns nothing or raises. *)
Theorem parseFrontmatter_header_split (y body : string) (b0 b1 b2 : bool) :
  no_delimiter_line (tail (lines y)) = true ->
  last_is_CR y = false ->
  frontmatterRegex ("---" +:+ opt_cr b0 +:+ nl +:+ y +:+ terminated b1 b2 body)
  = Some (y, body)
  /\ parseFrontmatter ("---" +:+ opt_cr b0 +:+ nl +:+ y +:+ terminated b1 b2 body)
     = {| data := match parseYaml y with
                  | Ok v => nullish v empty_object
                  | Err _ => empty_object
                  end;
          content := body |}.
Proof.
  intros Hlines Hlast.
  pose proof (RegexMore.frontmatterRegex_terminated y body b0 b1 b2 Hlines Hlast) as Hm.
  split; [done|]. unfold parseFrontmatter. rewrite Hm. by destruct (parseYaml y).
Qed.

Lemma parseFrontmatter_data_not_null (input : string) :
  data (parseFrontmatter input) <> VNull.
Proof.
  unfold parseFrontmatter.
  destruct (frontmatterRegex input) as [[y md]|]; [|done].
  destruct (parseYaml y) as [v|e]; [|done]. by destruct v.
Qed.

(** X11: the body [parseFrontmatter] returns is always an end of the input,
    and it is the whole input exactly when no header is recognised; the
    metadata it returns is never null, so reading a property of it cannot
    raise. *)
Theorem parseFrontmatter_body_suffix (input : string) :
  (exists header, input = header +:+ content (parseFrontmatter input))
  /\ (content (parseFrontmatter input) = input <-> frontmatterRegex input = None)
  /\ data (parseFrontmatter input) <> VNull.
Proof.
  split; [|split; [|apply parseFrontmatter_data_not_null]].
  - unfold parseFrontmatter.
    destruct (frontmatterRegex input) as [[y md]|] eqn:Hm.
    + destruct (RegexTheory.frontmatterRegex_sound input y md Hm) as (b0 & b1 & b2 & ->).
      exists ("---" +:+ opt_cr b0 +:+ nl +:+ y +:+ opt_cr b1 +:+ nl +:+ "---"
                +:+ opt_cr b2 +:+ nl).
      rewrite !RegexTheory.append_assoc. by destruct (parseYaml y).
    + by exists "".
  - unfold parseFrontmatter.
    destruct (frontmatterRegex input) as [[y md]|] eqn:Hm; [|done].
    pose proof (RegexTheory.frontmatterRegex_shorter input y md Hm) as Hlt.
    split; [|done]. intros Heq.
    assert (md = input) as -> by (by destruct (parseYaml y)). lia.
Qed.

End FrontmatterMore.

Lemma parseFrontmatter_header_split_witness :
  Regex.frontmatterRegex
    ("---" +:+ Regex.opt_cr true +:+ Regex.nl
       +:+ ("title: Types" +:+ Regex.cr +:+ Regex.nl +:+ "description: Schema")
       +:+ Regex.terminated true true "Body")
  = Some ("title: Types" +:+ Regex.cr +:+ Regex.nl +:+ "description: Schema", "Body").
Proof.
  apply (proj1 (@parseFrontmatter_header_split (Sample.packages true)
                  ("title: Types" +:+ Regex.cr +:+ Regex.nl +:+ "description: Schema")
                  "Body" true true true eq_refl eq_refl)).
Defined.

(** ** More on the heading identifiers: which identifier a heading gets *)

Section SlugsMore.
Context `{Packages}.

Lemma slug_loop_step fuel (occ : gmap string nat) o r x :
  occ !! r = Some x ->
  slug_loop (S fuel) occ o r
  = slug_loop fuel (<[o := S (default 0%nat (occ !! o))]> occ) o
      (candidate o (S (default 0%nat (occ !! o)))).
Proof. intros Hr. simpl. by rewrite Hr. Qed.

#[local] Arguments slug_loop : simpl never.

Lemma slug_run_app occ a b :
  slug_run occ (a ++ b)
  = (fst (slug_run occ a) ++ fst (slug_run (snd (slug_run occ a)) b),
     snd (slug_run (snd (slug_run occ a)) b)).
Proof.
  revert occ. induction a as [|x a IH]; intros occ; simpl.
  - by destruct (slug_run occ b).
  - destruct (slug_loop (S (size occ)) occ x x) as [r occ1].
    rewrite IH. destruct (slug_run occ1 a) as [rs occ2]. simpl.
    by destruct (slug_run occ2 b).
Qed.

Lemma slug_run_length occ bs : length (fst (slug_run occ bs)) = length bs.
Proof.
  revert occ. induction bs as [|b bs IH]; intros occ; simpl; [done|].
  destruct (slug_loop (S (size occ)) occ b b) as [r occ1].
  specialize (IH occ1). destruct (slug_run occ1 bs) as [rs occ2]. simpl in *. by rewrite IH.
Qed.

Lemma parser_state_nil st : parser_state st [] = st.
Proof. destruct st. unfold parser_state. simpl. by rewrite app_nil_r. Qed.

Lemma parser_state_app st a b :
  parser_state (parser_state st a) b = parser_state st (a ++ b).
Proof.
  unfold parser_state, bases_of. simpl.
  rewrite map_app, slug_run_app. simpl.
  rewrite zip_with_app by (by rewrite slug_run_length, length_map).
  by rewrite app_assoc.
Qed.

Lemma gfm_heading_state t st :
  exists out, gfm_heading t st = (Ok out, parser_state st [t]).
Proof.
  unfold gfm_heading, bind, slugger_slug, parser_state, bases_of. simpl.
  destruct (slug_loop _ _ _ _) as [r occ1]. simpl. by eexists.
Qed.

Lemma parser_list_state l :
  Forall (fun t => forall st, exists out,
            parser_token t st = (Ok out, parser_state st (rendered_headings t))) l ->
  forall st, exists outs,
    mapM parser_token l st = (Ok outs, parser_state st (flat_map rendered_headings l)).
Proof.
  induction 1 as [|t l Ht Hl IH]; intros st; simpl.
  - exists []. by rewrite parser_state_nil.
  - unfold bind. destruct (Ht st) as (out & ->).
    destruct (IH (parser_state st (rendered_headings t))) as (outs & ->).
    exists (out :: outs). by rewrite parser_state_app.
Qed.

Lemma parser_token_state t :
  forall st, exists out,
    parser_token t st = (Ok out, parser_state st (rendered_headings t)).
Proof.
  induction t as [t IH] using Token_nested_ind. intros st.
  rewrite parser_token_eq, rendered_headings_eq.
  destruct (String.eqb (type t) "code").
  { exists (renderer_code t). by rewrite parser_state_nil. }
  destruct (String.eqb (type t) "heading"); [apply gfm_heading_state|].
  unfold bind. destruct (parser_list_state (tokens t) IH st) as (outs & ->).
  by eexists.
Qed.

Lemma parser_state_spec l st :
  exists out, parser l st = (Ok out, parser_state st (flat_map rendered_headings l)).
Proof.
  unfold parser, bind.
  destruct (parser_list_state l) with (st := st) as (outs & ->).
  { apply Forall_forall. intros t _. apply parser_token_state. }
  by eexists.
Qed.

Lemma map_id_zip_heading_of ts ids :
  length ids = length ts ->
  map id (map export_heading (zip_with heading_of ts ids)) = ids.
Proof.
  revert ids. induction ts as [|t ts IH]; intros [|i ids] Hlen; simpl in *; try done.
  by rewrite IH by lia.
Qed.

(** The identifiers [parseMarkdown] returns are those of [slug_run] on the
    base slugs of the document's heading tokens, from a fresh slugger. *)
Lemma parseMarkdown_ids doc st st' r toks :
  parseMarkdown doc st = (Ok r, st') ->
  mapR (walk_result (effective st)) (lexer (content (parseFrontmatter doc))) = Ok toks ->
  map id (p_headings r) = fst (slug_run ∅ (bases_of (flat_map rendered_headings toks))).
Proof.
  destruct (parseMarkdown_spec doc st) as (st1 & -> & _). intros [= Hr _].
  unfold parse_result in Hr. destruct (parseFrontmatter doc) as [fm md]. simpl.
  intros Hw. rewrite Hw in Hr.
  destruct (parser_state_spec toks initial) as (out & Hp). rewrite Hp in Hr.
  injection Hr as <-. simpl.
  apply map_id_zip_heading_of. unfold bases_of. by rewrite slug_run_length, length_map.
Qed.

Lemma slug_run_fresh (occ : gmap string nat) bs :
  NoDup bs -> (forall b, b ∈ bs -> occ !! b = None) ->
  fst (slug_run occ bs) = bs.
Proof.
  revert occ. induction bs as [|b bs IH]; intros occ Hnd Hfresh; simpl; [done|].
  rewrite slug_loop_exit by (apply Hfresh, list_elem_of_here).
  apply NoDup_cons in Hnd as [Hb Hnd].
  specialize (IH (<[b := 0%nat]> occ) Hnd).
  destruct (slug_run (<[b := 0%nat]> occ) bs) as [rs occ2]. simpl in *.
  rewrite IH; [done|]. intros b' Hb'. rewrite lookup_insert_ne.
  - by apply Hfresh, list_elem_of_further.
  - intros ->. done.
Qed.

Lemma slug_loop_repeat (occ : gmap string nat) b k :
  occ !! b = Some k -> occ !! candidate b (S k) = None ->
  slug_loop (S (size occ)) occ b b
  = (candidate b (S k), <[candidate b (S k) := 0%nat]> (<[b := S k]> occ)).
Proof.
  intros Hb Hc. rewrite (slug_loop_step _ occ b b k Hb), Hb. simpl.
  apply slug_loop_exit. rewrite lookup_insert_ne by (symmetry; apply candidate_ne). done.
Qed.

Lemma slug_run_repeat n : forall (occ : gmap string nat) b k,
  occ !! b = Some k ->
  (forall j, (k < j)%nat -> occ !! candidate b j = None) ->
  fst (slug_run occ (replicate n b)) = map (candidate b) (seq (S k) n).
Proof.
  induction n as [|n IH]; intros occ b k Hb Hc; simpl; [done|].
  rewrite (slug_loop_repeat occ b k) by (done || apply Hc; lia).
  specialize (IH (<[candidate b (S k) := 0%nat]> (<[b := S k]> occ)) b (S k)).
  destruct (slug_run _ (replicate n b)) as [rs occ2]. simpl in *.
  rewrite IH; [done | |].
  - rewrite lookup_insert_ne by apply candidate_ne. by rewrite lookup_insert_eq.
  - intros j Hj. rewrite lookup_insert_ne.
    + rewrite lookup_insert_ne by (symmetry; apply candidate_ne). apply Hc. lia.
    + intros Heq%candidate_inj. lia.
Qed.

(** X13: in a document whose heading tokens have pairwise distinct base
    slugs, the identifier of every heading is its base slug, unchanged. *)
Theorem heading_ids_are_base_slugs (doc : string) (st st' : State)
    (r : ParsedMarkdown) (toks : list Token) :
  parseMarkdown doc st = (Ok r, st') ->
  mapR (walk_result (effective st)) (lexer (content (parseFrontmatter doc))) = Ok toks ->
  NoDup (bases_of (flat_map rendered_headings toks)) ->
  map id (p_headings r) = bases_of (flat_map rendered_headings toks).
Proof.
  intros Hp Hw Hnd. rewrite (parseMarkdown_ids doc st st' r toks Hp Hw).
  apply slug_run_fresh; [done|]. intros b _. apply lookup_empty.
Qed.

(** X14: in a document whose heading tokens all have the same base slug
    [b], the first heading gets [b] and the following ones get [b-1],
    [b-2], ... in document order. *)
Theorem repeated_heading_ids_numbered (doc : string) (st st' : State)
    (r : ParsedMarkdown) (toks : list Token) (b : string) (n : nat) :
  parseMarkdown doc st = (Ok r, st') ->
  mapR (walk_result (effective st)) (lexer (content (parseFrontmatter doc))) = Ok toks ->
  bases_of (flat_map rendered_headings toks) = replicate (S n) b ->
  map id (p_headings r) = b :: map (candidate b) (seq 1 n).
Proof.
  intros Hp Hw Hb. rewrite (parseMarkdown_ids doc st st' r toks Hp Hw), Hb. simpl.
  rewrite slug_loop_exit by apply lookup_empty.
  pose proof (slug_run_repeat n (<[b := 0%nat]> ∅) b 0%nat) as Hrun.
  destruct (slug_run (<[b := 0%nat]> ∅) (replicate n b)) as [rs occ2]. simpl in *.
  rewrite Hrun; [done | by rewrite lookup_insert_eq |].
  intros j Hj. rewrite lookup_insert_ne by (symmetry; apply candidate_ne).
  apply lookup_empty.
Qed.

End SlugsMore.

Lemma heading_ids_are_base_slugs_witness :
  map id [mkHeading "install" "Install" 2; mkHeading "usage" "Usage" 2]
  = @bases_of (Sample.packages true)
      (flat_map rendered_headings
         [Sample.heading_token 2 "Install"; Sample.heading_token 2 "Usage"]).
Proof.
  apply (@heading_ids_are_base_slugs (Sample.packages true) Sample.sections
           (@initial (Sample.packages true))
           (snd (@parseMarkdown (Sample.packages true) Sample.sections
                   (@initial (Sample.packages true))))
           {| html := "<h2 id=" +:+ quote +:+ "install" +:+ quote +:+ ">Install</h2>"
                        +:+ Regex.nl
                        +:+ "<h2 id=" +:+ quote +:+ "usage" +:+ quote
                        +:+ ">Usage</h2>" +:+ Regex.nl;
              p_headings := [mkHeading "install" "Install" 2; mkHeading "usage" "Usage" 2];
              frontmatter := empty_object |}
           [Sample.heading_token 2 "Install"; Sample.heading_token 2 "Usage"]).
  - vm_compute. reflexivity.
  - reflexivity.
  - apply (bool_decide_unpack _). vm_compute. reflexivity.
Defined.

Lemma repeated_heading_ids_numbered_witness :
  map id [ mkHeading "example" "Example" 2;
           mkHeading "example-1" "Example" 3;
           mkHeading "example-2" "Example" 2 ]
  = "example" :: map (candidate "example") (seq 1 2).
Proof.
  apply (@repeated_heading_ids_numbered (Sample.packages true) Sample.thrice
           (@initial (Sample.packages true))
           (snd (@parseMarkdown (Sample.packages true) Sample.thrice
                   (@initial (Sample.packages true))))
           {| html := "<h2 id=" +:+ quote +:+ "example" +:+ quote +:+ ">Example</h2>"
                        +:+ Regex.nl
                        +:+ "<h3 id=" +:+ quote +:+ "example-1" +:+ quote
                        +:+ ">Example</h3>" +:+ Regex.nl
                        +:+ "<h2 id=" +:+ quote +:+ "example-2" +:+ quote
                        +:+ ">Example</h2>" +:+ Regex.nl;
              p_headings := [ mkHeading "example" "Example" 2;
                              mkHeading "example-1" "Example" 3;
                              mkHeading "example-2" "Example" 2 ];
              frontmatter := empty_object |}
           [ Sample.heading_token 2 "Example"; Sample.heading_token 3 "Example";
             Sample.heading_token 2 "Example" ]
           "example" 2%nat).
  - vm_compute. reflexivity.
  - reflexivity.
  - reflexivity.
Defined.

(** ** The route: what a request for a document gets *)

Section RouteTheory.
Context `{Packages} `{Runtime}.

Lemma loadMarkdownFile_spec filePath st :
  exists st',
    loadMarkdownFile filePath st = (load_result (effective st) filePath, st')
    /\ effective st' = effective st.
Proof.
  unfold loadMarkdownFile, load_result, bind, lift.
  destruct (readTextFile filePath) as [c|e]; [|by exists st].
  apply parseMarkdown_spec.
Qed.

Lemma parse_result_frontmatter eh doc r :
  parse_result eh doc = Ok r -> frontmatter r = data (parseFrontmatter doc).
Proof.
  unfold parse_result. destruct (parseFrontmatter doc) as [fm md].
  destruct (mapR _ (lexer md)) as [toks|e]; [|done].
  destruct (parser toks initial) as [[h|e] stp]; [|done]. by intros [= <-].
Qed.

Lemma load_result_not_null eh filePath r :
  load_result eh filePath = Ok r -> frontmatter r <> VNull.
Proof.
  unfold load_result. destruct (readTextFile filePath) as [c|e]; [|done].
  intros Hr. rewrite (parse_result_frontmatter eh c r Hr).
  apply parseFrontmatter_data_not_null.
Qed.

Lemma page_data_not_null parsed entry slug :
  frontmatter parsed <> VNull ->
  page_data parsed entry (Toc.getNavigation slug) = Page (page_of parsed entry slug).
Proof.
  intros Hnn. unfold page_data, member, page_of.
  by destruct (frontmatter parsed).
Qed.

(** [GET] in terms of [load_result]. *)
Lemma GET_spec slugParts st :
  fst (GET slugParts st)
  = match Toc.getEntryBySlug (requested slugParts) with
    | None => HttpError 404
    | Some entry =>
        match load_result (effective st)
                (pathname ("../../content/docs/" +:+ Toc.file (Toc.entry entry))) with
        | Ok parsed => Page (page_of parsed entry (requested slugParts))
        | Err _ => HttpError 404
        end
    end.
Proof.
  unfold GET, requested. destruct (Toc.getEntryBySlug _) as [entry|]; [|done].
  destruct (loadMarkdownFile_spec
              (pathname ("../../content/docs/" +:+ Toc.file (Toc.entry entry))) st)
    as (st' & -> & _).
  destruct (load_result _ _) as [parsed|e] eqn:Hl; [|done]. simpl.
  apply page_data_not_null. by eapply load_result_not_null.
Qed.

Lemma GET_prod_dev_spec slugParts st :
  fst (GET_prod_dev slugParts st)
  = match Toc.getEntryBySlug (requested slugParts) with
    | None => HttpError 404
    | Some entry =>
        match load_result (effective st)
                (pathname "../content/docs/" +:+ Toc.file (Toc.entry entry)) with
        | Ok parsed => Page (page_of parsed entry (requested slugParts))
        | Err _ =>
            match load_result (effective st)
                    (pathname "../../content/docs/" +:+ Toc.file (Toc.entry entry)) with
            | Ok parsed => Page (page_of parsed entry (requested slugParts))
            | Err _ => HttpError 404
            end
        end
    end.
Proof.
  unfold GET_prod_dev, requested. destruct (Toc.getEntryBySlug _) as [entry|]; [|done].
  destruct (loadMarkdownFile_spec
              (pathname "../content/docs/" +:+ Toc.file (Toc.entry entry)) st)
    as (st1 & -> & Heff).
  destruct (load_result (effective st) (pathname "../content/docs/" +:+ _))
    as [parsed|e] eqn:Hl.
  { simpl. apply page_data_not_null. by eapply load_result_not_null. }
  destruct (loadMarkdownFile_spec
              (pathname "../../content/docs/" +:+ Toc.file (Toc.entry entry)) st1)
    as (st2 & -> & _).
  rewrite Heff.
  destruct (load_result (effective st) (pathname "../../content/docs/" +:+ _))
    as [parsed|e'] eqn:Hl2; [|done].
  simpl. apply page_data_not_null. by eapply load_result_not_null.
Qed.

Lemma load_result_ok st filePath :
  is_ok (load_result (effective st) filePath)
  = match readTextFile filePath with
    | Ok content =>
        forallb (fun t => is_ok (highlight_result (effective st) (text t) (Some (tag t))))
                (code_tokens content)
    | Err _ => false
    end.
Proof.
  unfold load_result. destruct (readTextFile filePath) as [c|e]; [|done].
  rewrite <- parseMarkdown_ok. by destruct (parseMarkdown_spec c st) as (st' & -> & _).
Qed.

(** X15: a request ends with the page data or with [HttpError(404)], in
    both versions of the handler: whatever goes wrong while the document is
    read or parsed is answered as not found, and reading [title] and
    [description] off the metadata never raises, the metadata being never
    null. *)
Theorem GET_page_or_not_found (slugParts : option string) (st : State) :
  ((exists d, fst (GET slugParts st) = Page d)
   \/ fst (GET slugParts st) = HttpError 404)
  /\ ((exists d, fst (GET_prod_dev slugParts st) = Page d)
      \/ fst (GET_prod_dev slugParts st) = HttpError 404).
Proof.
  split.
  - rewrite GET_spec. destruct (Toc.getEntryBySlug _) as [entry|]; [|by right].
    destruct (load_result _ _) as [parsed|e]; [left; by eexists | by right].
  - rewrite GET_prod_dev_spec. destruct (Toc.getEntryBySlug _) as [entry|]; [|by right].
    destruct (load_result _ _) as [parsed|e]; [left; by eexists|].
    destruct (load_result _ _) as [parsed|e']; [left; by eexists | by right].
Qed.

(** X16: [GET] answers with a page exactly when the catalog has an entry
    for the slug asked for (the root document when the parameter is absent
    or empty), the entry's file can be read, and the [highlight] call of
    every code token of the file succeeds; in every other case, a raising
    [highlight] included, the answer is [HttpError(404)]. *)
Theorem GET_page_iff (slugParts : option string) (st : State) :
  is_page (fst (GET slugParts st))
  = match Toc.getEntryBySlug (requested slugParts) with
    | None => false
    | Some entry =>
        match readTextFile
                (pathname ("../../content/docs/" +:+ Toc.file (Toc.entry entry))) with
        | Ok content =>
            forallb (fun t =>
                       is_ok (highlight_result (effective st) (text t) (Some (tag t))))
                    (code_tokens content)
        | Err _ => false
        end
    end.
Proof.
  rewrite GET_spec. destruct (Toc.getEntryBySlug _) as [entry|]; [|done].
  rewrite <- load_result_ok. by destruct (load_result _ _).
Qed.

(** X17: the page [GET] answers with is the page of the entry asked for:
    its [currentPath] is the address of the slug, its neighbours are those
    [getNavigation] gives for the slug, its markup and headings are those
    of [parseMarkdown] on the entry's file, and its title is the metadata's
    [title] when that is truthy and the catalog's title otherwise. *)
Theorem GET_page_fields (slugParts : option string) (st : State) (d : Data) :
  fst (GET slugParts st) = Page d ->
  exists entry content parsed,
    Toc.getEntryBySlug (requested slugParts) = Some entry
    /\ readTextFile (pathname ("../../content/docs/" +:+ Toc.file (Toc.entry entry)))
       = Ok content
    /\ fst (parseMarkdown content st) = Ok parsed
    /\ currentPath d = Toc.href_of (requested slugParts)
    /\ d_prev d = Toc.prev (Toc.getNavigation (requested slugParts))
    /\ d_next d = Toc.next (Toc.getNavigation (requested slugParts))
    /\ d_html d = html parsed
    /\ d_headings d = p_headings parsed
    /\ d_title d
       = or_value (get_field "title" (data (parseFrontmatter content)))
           (VString (Toc.title (Toc.entry entry)))
    /\ d_description d = get_field "description" (data (parseFrontmatter content)).
Proof.
  rewrite GET_spec. destruct (Toc.getEntryBySlug _) as [entry|] eqn:He; [|done].
  unfold load_result.
  destruct (readTextFile _) as [content|e] eqn:Hread; [|done].
  destruct (parse_result (effective st) content) as [parsed|e] eqn:Hp; [|done].
  intros [= <-]. exists entry, content, parsed.
  split; [done|]. split; [done|]. split.
  { destruct (parseMarkdown_spec content st) as (st' & -> & _). done. }
  split; [by apply TocMore.getEntryBySlug_address|].
  unfold page_of. simpl. rewrite (parse_result_frontmatter _ _ _ Hp). done.
Qed.

(** X18: the handler with two places reads the development place only when
    loading from the production place failed, and the failed attempt does
    not change what the second gives: the answer is the page of the first
    place that loads, each load being the one a fresh request would make,
    and [HttpError(404)] when neither loads. *)
Theorem GET_prod_dev_first_that_loads (slugParts : option string) (st : State) :
  fst (GET_prod_dev slugParts st)
  = match Toc.getEntryBySlug (requested slugParts) with
    | None => HttpError 404
    | Some entry =>
        match fst (loadMarkdownFile
                     (pathname "../content/docs/" +:+ Toc.file (Toc.entry entry)) st) with
        | Ok parsed => Page (page_of parsed entry (requested slugParts))
        | Err _ =>
            match fst (loadMarkdownFile
                         (pathname "../../content/docs/" +:+ Toc.file (Toc.entry entry))
                         st) with
            | Ok parsed => Page (page_of parsed entry (requested slugParts))
            | Err _ => HttpError 404
            end
        end
    end.
Proof.
  rewrite GET_prod_dev_spec. destruct (Toc.getEntryBySlug _) as [entry|]; [|done].
  destruct (loadMarkdownFile_spec
              (pathname "../content/docs/" +:+ Toc.file (Toc.entry entry)) st)
    as (st1 & -> & _).
  destruct (loadMarkdownFile_spec
              (pathname "../../content/docs/" +:+ Toc.file (Toc.entry entry)) st)
    as (st2 & -> & _).
  done.
Qed.

End RouteTheory.

Lemma GET_page_fields_witness :
  exists entry content parsed,
    Toc.getEntryBySlug (requested None) = Some entry
    /\ @readTextFile sample_runtime
         (@pathname sample_runtime
            ("../../content/docs/" +:+ Toc.file (Toc.entry entry)))
       = Ok content
    /\ fst (@parseMarkdown (Sample.packages true) content (@initial (Sample.packages true)))
       = Ok parsed
    /\ "/docs" = Toc.href_of (requested None)
    /\ None = Toc.prev (Toc.getNavigation (requested None))
    /\ Some (Toc.mkNavEntry "Installation" (Some "Getting Started") "/docs/installation")
       = Toc.next (Toc.getNavigation (requested None))
    /\ "<h2 id=" +:+ quote +:+ "start" +:+ quote +:+ ">Start</h2>" +:+ Regex.nl
       = html parsed
    /\ [mkHeading "start" "Start" 2] = p_headings parsed
    /\ VString "Welcome"
       = @or_value sample_runtime
           (get_field "title" (data (@parseFrontmatter (Sample.packages true) content)))
           (VString (Toc.title (Toc.entry entry)))
    /\ None = get_field "description" (data (@parseFrontmatter (Sample.packages true) content)).
Proof.
  apply (@GET_page_fields (Sample.packages true) sample_runtime None
           (@initial (Sample.packages true))
           {| d_title := VString "Welcome";
              d_description := None;
              d_html := "<h2 id=" +:+ quote +:+ "start" +:+ quote +:+ ">Start</h2>"
                          +:+ Regex.nl;
              d_headings := [mkHeading "start" "Start" 2];
              currentPath := "/docs";
              d_prev := None;
              d_next := Some (Toc.mkNavEntry "Installation" (Some "Getting Started")
                                "/docs/installation") |}).
  vm_compute. reflexivity.
Defined.

Lemma parseFrontmatter_body_suffix_witness :
  content (@parseFrontmatter (Sample.packages true) "plain text") = "plain text".
Proof.
  apply (proj2 (proj1 (proj2 (@parseFrontmatter_body_suffix (Sample.packages true)
                                "plain text")))).
  reflexivity.
Defined.
